(** * Data Quality Reviewer: quarantine validation, merge and review page

    A shallow embedding of the quarantine-review application:

    - the violation detection logic of [docs/design.md]
      ([detect_violations], Python), with Python's dictionary lookup,
      comparison and truthiness written out, exceptions included;
    - the pipeline trigger of [docs/design.md]
      ([PipelineService.trigger_pipeline], Python);
    - the review page [client/src/pages/QuarantinePageSodexo.tsx]
      (statistics cards, edit buffer, the Save button);
    - the Batch Processor and the Merge Coordinator, which have no
      implementation in the repository and are modelled from the
      specification. *)

From Stdlib Require Import ZArith String Ascii List Bool Lia.
From stdpp Require Import gmap strings list fin_maps.

Local Open Scope string_scope.
Local Open Scope Z_scope.
Local Open Scope list_scope.

(** ** Python values and exceptions *)

Module Py.

(** The values a record field can hold: [None], a string, an integer
    (the design's [QuarantineRecord] model types the numeric fields as
    [Optional[int]]). *)
Inductive value : Type :=
| NoneV
| Str (s : string)
| Int (z : Z).

Inductive exn : Type :=
| KeyError (k : string)
| TypeError
| AttributeError (attribute : string).

Inductive result (A : Type) : Type :=
| Ok (a : A)
| Raise (e : exn).
Arguments Ok {A} a.
Arguments Raise {A} e.

(** Sequencing: an exception ends the computation. *)
#[global] Instance result_ret : MRet result := fun A a => Ok a.
#[global] Instance result_bind : MBind result := fun A B k m =>
  match m with
  | Ok a => k a
  | Raise e => Raise e
  end.
#[global] Instance result_fmap : FMap result := fun A B f m =>
  match m with
  | Ok a => Ok (f a)
  | Raise e => Raise e
  end.

(** A record is a dictionary from field names to values. *)
Abbreviation dict := (gmap string value).

(** [d[k]]: raises [KeyError] when the key is missing. *)
Definition getitem (d : dict) (k : string) : result value :=
  match d !! k with
  | Some v => Ok v
  | None => Raise (KeyError k)
  end.

(** [a <= b]: strings compare lexicographically, integers numerically,
    every other pairing (in particular [None] on either side) raises
    [TypeError]. *)
Definition le (a b : value) : result bool :=
  match a, b with
  | Str s, Str t => Ok (String.leb s t)
  | Int x, Int y => Ok (x <=? y)
  | _, _ => Raise TypeError
  end.

(** Truth value of an object: [None], the empty string and [0] are
    false. *)
Definition truthy (v : value) : bool :=
  match v with
  | NoneV => false
  | Str s => negb (String.eqb s EmptyString)
  | Int z => negb (z =? 0)
  end.

End Py.

Import Py.

(** ** Violation kinds and validation results *)

Inductive ViolationType : Type :=
| PAYMENT_DATE
| BALANCE
| COST_CENTER.

#[global] Instance ViolationType_eq_dec : EqDecision ViolationType.
Proof. solve_decision. Defined.

(** [fastapi_client/models/ValidationResult.ts] *)
Record ValidationResult : Type := {
  composite_key : string;
  is_valid : bool;
  violations : list ViolationType;
  errors : list string
}.

(** ** Violation detection ([docs/design.md], [detect_violations]) *)

Definition CUTOFF : string := "2020-12-31".

(** [record['next_payment_date'] <= '2020-12-31'] *)
Definition payment_date_violated (record : dict) : result bool :=
  d ← getitem record "next_payment_date";
  le d (Str CUTOFF).

(** [record['balance'] <= 0 or record['arrears_balance'] <= 0]; [or] does
    not evaluate its right operand when the left one is true. *)
Definition balance_violated (record : dict) : result bool :=
  b ← getitem record "balance";
  c ← le b (Int 0);
  if (c : bool) then Ok true
  else (a ← getitem record "arrears_balance"; le a (Int 0)).

(** [not record['cost_center_code']] *)
Definition cost_center_violated (record : dict) : result bool :=
  c ← getitem record "cost_center_code";
  Ok (negb (truthy c)).

Definition append_if (c : bool) (k : ViolationType) (vs : list ViolationType)
  : list ViolationType :=
  if c then vs ++ [k] else vs.

Definition detect_violations (record : dict) : result (list ViolationType) :=
  let violations := [] in
  c ← payment_date_violated record;
  let violations := append_if c PAYMENT_DATE violations in
  c ← balance_violated record;
  let violations := append_if c BALANCE violations in
  c ← cost_center_violated record;
  let violations := append_if c COST_CENTER violations in
  Ok violations.

(** ** Constraint Registry and Validator *)

(** The condition under which [detect_violations] reports a kind. *)
Definition violated (kind : ViolationType) (record : dict) : result bool :=
  match kind with
  | PAYMENT_DATE => payment_date_violated record
  | BALANCE => balance_violated record
  | COST_CENTER => cost_center_violated record
  end.

(** Modelled from the spec: the Constraint Registry, which has no
    implementation in the repository.  [evaluate kind record] is true when
    the constraint is satisfied; the predicate of a kind is the negation
    of the condition [detect_violations] tests for it.  The registry lists
    the kinds in declaration order. *)
Definition evaluate (kind : ViolationType) (record : dict) : result bool :=
  negb <$> violated kind record.

Definition registry : list ViolationType :=
  [PAYMENT_DATE; BALANCE; COST_CENTER].

(** The record's composite key ([QuarantineRecord.composite_key]). *)
Definition record_key (record : dict) : string :=
  match record !! "composite_key" with
  | Some (Str k) => k
  | _ => EmptyString
  end.

Definition kind_name (k : ViolationType) : string :=
  match k with
  | PAYMENT_DATE => "PAYMENT_DATE"
  | BALANCE => "BALANCE"
  | COST_CENTER => "COST_CENTER"
  end.

(** Runs the constraints of [kinds] in order, keeping each outcome. *)
Fixpoint run_constraints (kinds : list ViolationType) (record : dict)
  : result (list (ViolationType * bool)) :=
  match kinds with
  | [] => Ok []
  | k :: rest =>
      p ← evaluate k record;
      ps ← run_constraints rest record;
      Ok ((k, p) :: ps)
  end.

Definition failed_kinds (outcomes : list (ViolationType * bool))
  : list ViolationType :=
  List.map fst (List.filter (fun o => negb (snd o)) outcomes).

(** Modelled from the spec: the Validator, which has no implementation in
    the repository.  It runs every registered constraint; a failed
    predicate puts its kind in the violation set, in registry order, and
    [is_valid] is the conjunction of all predicates. *)
Definition validate (record : dict) : result ValidationResult :=
  outcomes ← run_constraints registry record;
  Ok {| composite_key := record_key record;
        is_valid := forallb snd outcomes;
        violations := failed_kinds outcomes;
        errors := List.map kind_name (failed_kinds outcomes) |}.

(** ** Record updates *)

(** Modelled from the spec: a RecordUpdate, a composite key with a sparse
    set of changes to the editable fields
    ([QuarantineRecordUpdate.ts] is not in the repository). *)
Record RecordUpdate : Type := {
  upd_key : string;
  upd_next_payment_date : option value;
  upd_balance : option value;
  upd_arrears_balance : option value;
  upd_cost_center_code : option value
}.

Definition set_field (name : string) (change : option value) (record : dict)
  : dict :=
  match change with
  | Some v => <[name := v]> record
  | None => record
  end.

(** Modelled from the spec: applying the sparse changes of an update to a
    base record; fields the update does not mention keep the base value. *)
Definition apply_update (base : dict) (u : RecordUpdate) : dict :=
  set_field "cost_center_code" (upd_cost_center_code u)
    (set_field "arrears_balance" (upd_arrears_balance u)
       (set_field "balance" (upd_balance u)
          (set_field "next_payment_date" (upd_next_payment_date u) base))).

(** ** Pipeline trigger ([docs/design.md], [PipelineService.trigger_pipeline]) *)

Record Job : Type := {
  job_id : Z;
  job_name : string
}.

(** The objects the trigger can get back from [client.jobs.list]:
    [None], a job object, or an iterator over job objects. *)
Inductive PyObject : Type :=
| ObjNone
| ObjJob (job : Job)
| ObjIterator (items : list Job).

(** Truth value of an object in [if job:].  An iterator defines neither
    [__bool__] nor [__len__], so it is true even when it yields nothing. *)
Definition object_truthy (o : PyObject) : bool :=
  match o with
  | ObjNone => false
  | ObjJob _ => true
  | ObjIterator _ => true
  end.

(** [job.job_id]: only a job object has the attribute. *)
Definition getattr_job_id (o : PyObject) : result Z :=
  match o with
  | ObjJob job => Ok (job_id job)
  | ObjNone | ObjIterator _ => Raise (AttributeError "job_id")
  end.

(** The workspace client as the trigger sees it: what
    [client.jobs.list(name=...)] returns for a name, and the [run_now]
    calls the job runner has received, oldest first. *)
Record WorkspaceClient : Type := {
  jobs_list : string -> PyObject;
  runs : list Z
}.

(** [client.jobs.run_now(job_id=...)] *)
Definition jobs_run_now (c : WorkspaceClient) (jid : Z) : WorkspaceClient :=
  {| jobs_list := jobs_list c; runs := runs c ++ [jid] |}.

(** The client of the Databricks SDK over a workspace with the given
    jobs: [jobs.list] returns an iterator over the jobs of that name. *)
Definition databricks_client (jobs : list Job) (runs : list Z)
  : WorkspaceClient :=
  {| jobs_list := fun name =>
       ObjIterator (List.filter (fun j => String.eqb (job_name j) name) jobs);
     runs := runs |}.

(** A [PipelineService] instance.  The class has no [__init__], so the
    [client] attribute is there only if something has set it. *)
Record PipelineService : Type := {
  client : option WorkspaceClient
}.

(** [self.client] *)
Definition getattr_client (self : PipelineService) : result WorkspaceClient :=
  match client self with
  | Some c => Ok c
  | None => Raise (AttributeError "client")
  end.

Definition DEFAULT_PIPELINE : string :=
  "dbdemos_dlt_loan_charles_bernard_dbdemos_dlt_loans".

(** The method returns nothing; the result is the instance after the
    call, or the exception raised. *)
Definition trigger_pipeline (pipeline_name : string) (self : PipelineService)
  : result PipelineService :=
  c ← getattr_client self;
  let job := jobs_list c pipeline_name in
  if object_truthy job then
    jid ← getattr_job_id job;
    Ok {| client := Some (jobs_run_now c jid) |}
  else Ok self.

(** How a call ended: normally ([None]) or with an exception. *)
Definition call_outcome (r : result PipelineService) : option exn :=
  match r with
  | Ok _ => None
  | Raise e => Some e
  end.

(** [n] calls in a row with the same argument (a call and its retries),
    with how each ended.  A call that raises leaves the instance as it
    was. *)
Fixpoint trigger_repeatedly (n : nat) (pipeline_name : string)
    (self : PipelineService) : PipelineService * list (option exn) :=
  match n with
  | O => (self, [])
  | Datatypes.S m =>
      let r := trigger_pipeline pipeline_name self in
      let next := match r with
                  | Ok self' => self'
                  | Raise _ => self
                  end in
      let '(final, log) := trigger_repeatedly m pipeline_name next in
      (final, call_outcome r :: log)
  end.

(** The [run_now] calls recorded by the client of an instance. *)
Definition service_runs (self : PipelineService) : list Z :=
  match client self with
  | Some c => runs c
  | None => []
  end.

(** The [run_now] calls one call adds to those recorded before it. *)
Definition runs_added (pipeline_name : string) (self : PipelineService)
  : list Z :=
  match trigger_pipeline pipeline_name self with
  | Ok self' => drop (length (service_runs self)) (service_runs self')
  | Raise _ => []
  end.

(** ** The review page ([client/src/pages/QuarantinePageSodexo.tsx]) *)

(** [x || 0] on a count that may be undefined. *)
Definition or_zero (x : option Z) : Z :=
  match x with
  | Some n => n
  | None => 0
  end.

(** [Math.max] of one or more integers. *)
Definition Math_max (x : Z) (xs : list Z) : Z := fold_left Z.max xs x.

(** The [violation_counts] object of the violation-counts response. *)
Record ViolationCounts : Type := {
  count_PAYMENT_DATE : option Z;
  count_BALANCE : option Z;
  count_COST_CENTER : option Z
}.

(** The body of the violation-counts response (typed [any]). *)
Record ViolationCountsResponse : Type := {
  violation_counts : option ViolationCounts
}.

(** The fields of [QuarantineResponse] the statistics use. *)
Record QuarantineResponse : Type := {
  total_count : option Z;
  filtered_count : option Z
}.

(** What the two queries of the page currently hold. *)
Record Queries : Type := {
  quarantineData : option QuarantineResponse;
  isLoading : bool;
  error : bool;
  totalViolationCounts : option ViolationCountsResponse
}.

Definition totalCount (q : Queries) : Z :=
  or_zero (quarantineData q ≫= total_count).

Definition violationCounts (q : Queries) : ViolationCounts :=
  match totalViolationCounts q ≫= violation_counts with
  | Some counts => counts
  | None => {| count_PAYMENT_DATE := Some 0;
               count_BALANCE := Some 0;
               count_COST_CENTER := Some 0 |}
  end.

Definition totalQuarantinedCount (q : Queries) : Z :=
  match totalViolationCounts q with
  | Some _ =>
      Math_max (or_zero (count_PAYMENT_DATE (violationCounts q)))
        [or_zero (count_BALANCE (violationCounts q));
         or_zero (count_COST_CENTER (violationCounts q));
         1337]
  | None => totalCount q
  end.

(** A statistics card: its title and the value it shows (nothing when the
    value is undefined). *)
Record StatCard : Type := {
  card_title : string;
  card_value : option Z
}.

Definition renderStatCard (title : string) (value : option Z) : StatCard :=
  {| card_title := title; card_value := value |}.

Inductive View : Type :=
| LoadingView
| ErrorView
| Dashboard (cards : list StatCard).

(** The component's return value, as far as the statistics grid goes. *)
Definition render (q : Queries) : View :=
  if isLoading q then LoadingView
  else if error q then ErrorView
  else Dashboard
    [renderStatCard "Total Quarantined" (Some (totalQuarantinedCount q));
     renderStatCard "Payment Date Issues" (count_PAYMENT_DATE (violationCounts q));
     renderStatCard "Balance Issues" (count_BALANCE (violationCounts q));
     renderStatCard "Cost Center Issues" (count_COST_CENTER (violationCounts q))].

(** The value shown by the card of a given title. *)
Definition displayed (title : string) (v : View) : option Z :=
  match v with
  | Dashboard cards =>
      List.find (fun c => String.eqb (card_title c) title) cards ≫= card_value
  | _ => None
  end.

(** What an event handler can do besides updating component state. *)
Inductive Effect : Type :=
| ConsoleLog (message : string)
| ApiRequest (method url : string).

Definition is_api_request (e : Effect) : bool :=
  match e with
  | ApiRequest _ _ => true
  | ConsoleLog _ => false
  end.

Section Page.

(** The values typed into the edit fields (strings and numbers). *)
Context {V : Type}.

(** The [useState] cells of the component that editing touches. *)
Record PageState : Type := {
  batchMode : bool;
  expandedRecords : gset string;
  editingRecords : gset string;
  editState : gmap string (gmap string V);
  selectedRecords : gset string
}.

Definition toggleRecordEditing (compositeKey : string) (st : PageState)
  : PageState :=
  if decide (compositeKey ∈ editingRecords st) then
    {| batchMode := batchMode st;
       expandedRecords := expandedRecords st;
       editingRecords := editingRecords st ∖ {[compositeKey]};
       editState := delete compositeKey (editState st);
       selectedRecords := selectedRecords st |}
  else
    {| batchMode := batchMode st;
       expandedRecords := expandedRecords st;
       editingRecords := editingRecords st ∪ {[compositeKey]};
       editState := editState st;
       selectedRecords := selectedRecords st |}.

Definition handleFieldEdit (compositeKey field : string) (value : V)
    (st : PageState) : PageState :=
  {| batchMode := batchMode st;
     expandedRecords := expandedRecords st;
     editingRecords := editingRecords st;
     editState :=
       <[compositeKey :=
           <[field := value]> (default ∅ (editState st !! compositeKey))]>
         (editState st);
     selectedRecords := selectedRecords st |}.

(** A sequence of field edits, each a composite key, a field and a value. *)
Definition apply_edits (edits : list (string * string * V)) (st : PageState)
  : PageState :=
  foldl (fun s e => handleFieldEdit e.1.1 e.1.2 e.2 s) st edits.

(** The [onClick] of the Save Changes button of a record. *)
Definition save_click (compositeKey : string) (st : PageState)
  : PageState * list Effect :=
  (toggleRecordEditing compositeKey st, [ConsoleLog "Save changes for:"]).

(** The Save Changes button of a record is rendered while that record is
    being edited. *)
Definition save_button_shown (compositeKey : string) (st : PageState) : bool :=
  bool_decide (compositeKey ∈ editingRecords st).

End Page.

Arguments PageState V : clear implicits.

Section Server.

(** The backend behind the API: some state, changed only by the requests
    it receives. *)
Context {S : Type} (handle : string -> string -> S -> S).

Definition perform (e : Effect) (server : S) : S :=
  match e with
  | ConsoleLog _ => server
  | ApiRequest method url => handle method url server
  end.

Definition perform_all (effects : list Effect) (server : S) : S :=
  foldl (fun s e => perform e s) server effects.

End Server.

(** ** Stores, audit log and the merge engine

    The backend that validates and merges batches has no implementation
    in the repository (the client only calls its endpoints); the
    definitions of this part follow the specification. *)

(** A quarantine entry: the record and the violation kinds stored with
    it ([QuarantineRecord.violation_types]). *)
Record QuarantineEntry : Type := {
  q_record : dict;
  q_violations : list ViolationType
}.

(** Modelled from the spec: the action kinds of an audit entry. *)
Inductive ActionKind : Type :=
| EDIT
| MERGE
| VALIDATION_FAILED
| RE_QUARANTINE.

(** Modelled from the spec: an audit entry (record identity, acting
    user, action, prior and new field values, violation kinds at the
    time of the action). *)
Record AuditEntry : Type := {
  audit_key : string;
  audit_user : string;
  audit_action : ActionKind;
  audit_old_values : dict;
  audit_new_values : dict;
  audit_violations : list ViolationType
}.

(** Modelled from the spec: the state the Merge Coordinator works on,
    namely the two logical tables of the Table Store, keyed by composite
    key, the append-only audit log, and the workspace client through
    which the pipeline is triggered. *)
Record System : Type := {
  quarantine : gmap string QuarantineEntry;
  clean : gmap string dict;
  audit_log : list AuditEntry;
  workspace : WorkspaceClient
}.

(** Modelled from the spec: the batch-level errors, which abort the
    whole call. *)
Inductive BatchError : Type :=
| DUPLICATE_KEY.

(** Modelled from the spec: what happened to one record of a batch. *)
Inductive Outcome : Type :=
| Merged
| ReQuarantined (vs : list ViolationType)
| NotFound
| WriteFailed.

#[global] Instance Outcome_eq_dec : EqDecision Outcome.
Proof. solve_decision. Defined.

(** Modelled from the spec: one processed update, with its key, the
    candidate record (none when the base record is missing) and the
    validation result. *)
Record BatchItem : Type := {
  item_key : string;
  item_candidate : option dict;
  item_result : ValidationResult
}.

(** Modelled from the spec: the BatchResult, the processed updates in
    input order with the aggregate counts. *)
Record BatchResult : Type := {
  items : list BatchItem;
  valid_count : nat;
  invalid_count : nat;
  by_kind : ViolationType -> nat
}.

(** Modelled from the spec: the MergeResult, with the per-record
    outcomes it reports. *)
Record MergeResult : Type := {
  merged : nat;
  re_quarantined : nat;
  trigger_fired : bool;
  audit_reference : nat;
  outcomes : list (string * Outcome)
}.

Definition update_keys (updates : list RecordUpdate) : list string :=
  List.map upd_key updates.

(** Two or more updates of the batch share a composite key. *)
Definition has_duplicate_keys (updates : list RecordUpdate) : bool :=
  negb (bool_decide (NoDup (update_keys updates))).

Definition not_found_result (key : string) : ValidationResult :=
  {| composite_key := key;
     is_valid := false;
     violations := [];
     errors := ["RECORD_NOT_FOUND"] |}.

(** Modelled from the spec: the environment of the merge engine.  The
    Validator is total; a write to the clean store may fail for a key;
    a delete from quarantine may fail a number of times before it
    succeeds. *)
Record Environment : Type := {
  validator : dict -> ValidationResult;
  write_fails : string -> bool;
  delete_failures : string -> nat
}.

(** Modelled from the spec: the Batch Processor handling one update.  A
    missing base record is a per-record failure; otherwise the changes are
    applied and the candidate validated. *)
Definition process_update (env : Environment)
    (base_records : gmap string dict) (u : RecordUpdate) : BatchItem :=
  match base_records !! upd_key u with
  | None =>
      {| item_key := upd_key u;
         item_candidate := None;
         item_result := not_found_result (upd_key u) |}
  | Some base =>
      let candidate := apply_update base u in
      {| item_key := upd_key u;
         item_candidate := Some candidate;
         item_result := validator env candidate |}
  end.

Definition count_items (p : BatchItem -> bool) (l : list BatchItem) : nat :=
  length (List.filter p l).

Definition mk_batch (l : list BatchItem) : BatchResult :=
  {| items := l;
     valid_count := count_items (fun it => is_valid (item_result it)) l;
     invalid_count := count_items (fun it => negb (is_valid (item_result it))) l;
     by_kind := fun k =>
       count_items (fun it => bool_decide (k ∈ violations (item_result it))) l |}.

(** Modelled from the spec: the Batch Processor.  Duplicate keys reject
    the batch before anything is validated; otherwise the updates are
    processed in input order. *)
Definition process (env : Environment) (base_records : gmap string dict)
    (updates : list RecordUpdate) : BatchError + BatchResult :=
  if has_duplicate_keys updates then inl DUPLICATE_KEY
  else inr (mk_batch (List.map (process_update env base_records) updates)).

(** Modelled from the spec: step 1 of merge, one read of the quarantine
    table per update key; a missing key leaves no base record. *)
Definition load_base (q : gmap string QuarantineEntry) (keys : list string)
  : gmap string dict :=
  foldr (fun k acc =>
           match q !! k with
           | Some e => <[k := q_record e]> acc
           | None => acc
           end) ∅ keys.

(** Modelled from the spec: delete with compensating retry.  A failed
    attempt leaves the table as it is and the delete is tried again. *)
Fixpoint retry_delete (failures : nat) (k : string)
    (q : gmap string QuarantineEntry) : gmap string QuarantineEntry :=
  match failures with
  | O => delete k q
  | Datatypes.S n => retry_delete n k q
  end.

Definition set_violations (vs : list ViolationType) (e : QuarantineEntry)
  : QuarantineEntry :=
  {| q_record := q_record e; q_violations := vs |}.

Definition audit (key user : string) (action : ActionKind)
    (old new : dict) (vs : list ViolationType) : AuditEntry :=
  {| audit_key := key; audit_user := user; audit_action := action;
     audit_old_values := old; audit_new_values := new;
     audit_violations := vs |}.

(** The record the quarantine table holds for a key (empty when none). *)
Definition stored_record (sys : System) (k : string) : dict :=
  default ∅ (q_record <$> quarantine sys !! k).

(** Modelled from the spec: steps 3 and 4 of merge for one record.  A
    valid candidate is written to the clean store (without the
    quarantine-only field) and then deleted from quarantine, with an
    EDIT and a MERGE audit entry; when the write fails nothing else is
    done for the record.  An invalid candidate has the violation
    metadata of its quarantine entry replaced, with one audit entry, and
    the clean store is not touched. *)
Definition merge_item (env : Environment) (actor : string)
    (acc : System * list (string * Outcome)) (it : BatchItem)
  : System * list (string * Outcome) :=
  let '(sys, done) := acc in
  let k := item_key it in
  match item_candidate it with
  | None => (sys, done ++ [(k, NotFound)])
  | Some candidate =>
      let vs := violations (item_result it) in
      if is_valid (item_result it) then
        if write_fails env k then (sys, done ++ [(k, WriteFailed)])
        else
          ({| quarantine := retry_delete (delete_failures env k) k (quarantine sys);
              clean := <[k := delete "_rescued_data" candidate]> (clean sys);
              audit_log :=
                audit_log sys ++
                  [audit k actor EDIT (stored_record sys k) candidate vs;
                   audit k actor MERGE (stored_record sys k) candidate vs];
              workspace := workspace sys |},
           done ++ [(k, Merged)])
      else
        ({| quarantine := alter (set_violations vs) k (quarantine sys);
            clean := clean sys;
            audit_log :=
              audit_log sys ++
                [audit k actor VALIDATION_FAILED (stored_record sys k) candidate vs];
            workspace := workspace sys |},
         done ++ [(k, ReQuarantined vs)])
  end.

Definition is_merged (o : string * Outcome) : bool :=
  bool_decide (o.2 = Merged).

Definition is_requarantined (o : string * Outcome) : bool :=
  match o.2 with
  | ReQuarantined _ => true
  | _ => false
  end.

(** Modelled from the spec: step 5 of merge.  The pipeline is triggered
    once for the whole batch when at least one record merged; the trigger
    counts as fired when the call recorded a run, and a trigger that
    fails is reported as not fired without undoing anything. *)
Definition trigger_after (n_merged : nat) (sys : System) : System * bool :=
  if (0 <? n_merged)%nat then
    match trigger_pipeline DEFAULT_PIPELINE
            {| client := Some (workspace sys) |} with
    | Ok self' =>
        let c := default (workspace sys) (client self') in
        ({| quarantine := quarantine sys; clean := clean sys;
            audit_log := audit_log sys;
            workspace := c |},
         negb (length (runs c) =? length (runs (workspace sys)))%nat)
    | Raise _ => (sys, false)
    end
  else (sys, false).

(** Modelled from the spec: the Merge Coordinator.  Returns the result
    (or the batch-level error) and the system after the call. *)
Definition merge (env : Environment) (sys : System)
    (updates : list RecordUpdate) (actor : string)
  : (BatchError + MergeResult) * System :=
  let base_records := load_base (quarantine sys) (update_keys updates) in
  match process env base_records updates with
  | inl e => (inl e, sys)
  | inr batch =>
      let '(sys1, done) := foldl (merge_item env actor) (sys, []) (items batch) in
      let n_merged := length (List.filter is_merged done) in
      let '(sys2, fired) := trigger_after n_merged sys1 in
      (inr {| merged := n_merged;
              re_quarantined := length (List.filter is_requarantined done);
              trigger_fired := fired;
              audit_reference := length (audit_log sys2);
              outcomes := done |},
       sys2)
  end.

(** The outcome of one update, read off the quarantine table the call
    started from. *)
Definition record_outcome (env : Environment)
    (q : gmap string QuarantineEntry) (u : RecordUpdate) : Outcome :=
  match q !! upd_key u with
  | None => NotFound
  | Some e =>
      let r := validator env (apply_update (q_record e) u) in
      if is_valid r then
        if write_fails env (upd_key u) then WriteFailed else Merged
      else ReQuarantined (violations r)
  end.

(** The ownership invariant: no composite key is in both stores. *)
Definition stores_disjoint (sys : System) : Prop :=
  forall k, quarantine sys !! k = None \/ clean sys !! k = None.

Definition in_quarantine (sys : System) (k : string) : Prop :=
  is_Some (quarantine sys !! k).

Definition in_clean (sys : System) (k : string) : Prop :=
  is_Some (clean sys !! k).

Definition in_exactly_one_store (sys : System) (k : string) : Prop :=
  (in_quarantine sys k /\ ~ in_clean sys k) \/
  (~ in_quarantine sys k /\ in_clean sys k).

(** ** Auxiliary notions used in the statements *)

(** An update that changes the payment date and nothing else. *)
Definition date_update (key date : string) : RecordUpdate :=
  {| upd_key := key;
     upd_next_payment_date := Some (Str date);
     upd_balance := None;
     upd_arrears_balance := None;
     upd_cost_center_code := None |}.

(** An update that changes the balance and nothing else. *)
Definition balance_update (key : string) (amount : Z) : RecordUpdate :=
  {| upd_key := key;
     upd_next_payment_date := None;
     upd_balance := Some (Int amount);
     upd_arrears_balance := None;
     upd_cost_center_code := None |}.

(** The record satisfies every constraint but [kind]. *)
Definition violates_only (kind : ViolationType) (record : dict) : Prop :=
  forall k, evaluate k record = Ok true <-> k <> kind.

(** The outcome recorded for an item (it does not depend on the stores). *)
Definition item_outcome (env : Environment) (it : BatchItem) : Outcome :=
  match item_candidate it with
  | None => NotFound
  | Some _ =>
      if is_valid (item_result it) then
        if write_fails env (item_key it) then WriteFailed else Merged
      else ReQuarantined (violations (item_result it))
  end.

(** ** Sample data *)

Definition sample_record : dict :=
  {[ "composite_key" := Str "42|2024-01-01|QUARANTINED";
     "next_payment_date" := Str "2019-05-01";
     "balance" := Int 100;
     "arrears_balance" := Int 20;
     "cost_center_code" := Str "CC-17" ]}.

(** A quarantined record whose payment date is null. *)
Definition null_date_record : dict :=
  {[ "composite_key" := Str "7|2024-02-01|QUARANTINED";
     "next_payment_date" := NoneV;
     "balance" := Int 10;
     "arrears_balance" := Int 10;
     "cost_center_code" := Str "CC-1" ]}.

(** A record in which the [balance] key is missing. *)
Definition missing_balance_record : dict :=
  {[ "composite_key" := Str "9|2024-03-01|QUARANTINED";
     "next_payment_date" := Str "2024-06-01";
     "arrears_balance" := Int 10;
     "cost_center_code" := Str "CC-1" ]}.

(** A record whose cost centre is null. *)
Definition null_cost_center_record : dict :=
  {[ "composite_key" := Str "9|2024-03-01|QUARANTINED";
     "next_payment_date" := Str "2024-06-01";
     "balance" := Int 10;
     "arrears_balance" := Int 10;
     "cost_center_code" := NoneV ]}.

(** A record already in the clean store. *)
Definition clean_record : dict :=
  {[ "composite_key" := Str "1|2023-12-01|ACTIVE";
     "next_payment_date" := Str "2025-01-01";
     "balance" := Int 70;
     "arrears_balance" := Int 5;
     "cost_center_code" := Str "CC-3" ]}.

Definition sample_client : WorkspaceClient :=
  databricks_client [ {| job_id := 811; job_name := DEFAULT_PIPELINE |} ] [].

(** A service whose client is the SDK's. *)
Definition sample_service : PipelineService :=
  {| client := Some sample_client |}.

(** A client whose [jobs.list] hands back the job object itself. *)
Definition job_object_client : WorkspaceClient :=
  {| jobs_list := fun name =>
       ObjJob {| job_id := 811; job_name := name |};
     runs := [] |}.

Definition sample_queries : Queries :=
  {| quarantineData := Some {| total_count := Some 12; filtered_count := Some 12 |};
     isLoading := false;
     error := false;
     totalViolationCounts :=
       Some {| violation_counts :=
                 Some {| count_PAYMENT_DATE := Some 5;
                         count_BALANCE := Some 4;
                         count_COST_CENTER := Some 3 |} |} |}.

(** Query results in which one count exceeds 1337 and one is missing. *)
Definition large_queries : Queries :=
  {| quarantineData := Some {| total_count := Some 2100; filtered_count := Some 2100 |};
     isLoading := false;
     error := false;
     totalViolationCounts :=
       Some {| violation_counts :=
                 Some {| count_PAYMENT_DATE := Some 2000;
                         count_BALANCE := None;
                         count_COST_CENTER := Some 3 |} |} |}.

Definition sample_page : PageState Z :=
  {| batchMode := false;
     expandedRecords := ∅;
     editingRecords := {[ "42|2024-01-01|QUARANTINED" ]};
     editState := ∅;
     selectedRecords := ∅ |}.

(** A total validator for the merge engine: the Validator above, with a
    raised exception turned into an invalid result. *)
Definition sample_validator (record : dict) : ValidationResult :=
  match validate record with
  | Ok res => res
  | Raise _ =>
      {| composite_key := record_key record;
         is_valid := false;
         violations := [];
         errors := ["VALIDATION_ERROR"] |}
  end.

Definition sample_env : Environment :=
  {| validator := sample_validator;
     write_fails := fun _ => false;
     delete_failures := fun _ => 1%nat |}.

Definition sample_system : System :=
  {| quarantine :=
       {[ "42|2024-01-01|QUARANTINED" :=
            {| q_record := sample_record; q_violations := [PAYMENT_DATE] |} ]};
     clean := {[ "1|2023-12-01|ACTIVE" := clean_record ]};
     audit_log := [];
     workspace := sample_client |}.

(** ** Calendar dates in ISO form

    The payment date is compared as a string; these definitions write a
    calendar date the way the records hold it, [YYYY-MM-DD] with leading
    zeros, so that the comparison can be related to the calendar. *)

(** The character of a decimal digit. *)
Definition digit (n : N) : ascii := ascii_of_N (48 + n).

(** [n] below 100 written with two digits, in front of [rest]. *)
Definition two_digits (n : N) (rest : string) : string :=
  String (digit (n / 10)) (String (digit (n mod 10)) rest).

(** [n] below 10000 written with four digits, in front of [rest]. *)
Definition four_digits (n : N) (rest : string) : string :=
  two_digits (n / 100) (two_digits (n mod 100) rest).

Definition iso_date (y m d : N) : string :=
  four_digits y (String "-" (two_digits m (String "-" (two_digits d EmptyString)))).

(** Calendar order on (year, month, day). *)
Definition date_compare (y m d y' m' d' : N) : comparison :=
  match (y ?= y')%N with
  | Eq => match (m ?= m')%N with
          | Eq => (d ?= d')%N
          | c => c
          end
  | c => c
  end.

(** The first date is on or before the second. *)
Definition on_or_before (y m d y' m' d' : N) : bool :=
  match date_compare y m d y' m' d' with
  | Gt => false
  | _ => true
  end.

(** Two records hold the same values for the four editable fields. *)
Definition same_editable_fields (r1 r2 : dict) : Prop :=
  r1 !! "next_payment_date" = r2 !! "next_payment_date" /\
  r1 !! "balance" = r2 !! "balance" /\
  r1 !! "arrears_balance" = r2 !! "arrears_balance" /\
  r1 !! "cost_center_code" = r2 !! "cost_center_code".

(** ** The review page: JavaScript values *)

(** The values the page handles in record fields and edits.  Numbers
    are the integers (counts, whole amounts). *)
Inductive JsValue : Type :=
| JsUndefined
| JsNull
| JsString (s : string)
| JsNumber (n : Z).

#[global] Instance JsValue_eq_dec : EqDecision JsValue.
Proof. solve_decision. Defined.

(** Truthiness: [undefined], [null], the empty string and [0] are false. *)
Definition js_truthy (v : JsValue) : bool :=
  match v with
  | JsUndefined | JsNull => false
  | JsString s => negb (String.eqb s EmptyString)
  | JsNumber n => negb (n =? 0)
  end.

(** [a || b] *)
Definition js_or (a b : JsValue) : JsValue :=
  if js_truthy a then a else b.

(** Reading a property of an object: [undefined] when it is absent. *)
Definition js_get (o : gmap string JsValue) (field : string) : JsValue :=
  default JsUndefined (o !! field).

(** ** The review page: expansion and selection toggles *)

Definition toggleRecordExpansion {V} (compositeKey : string) (st : PageState V)
  : PageState V :=
  if decide (compositeKey ∈ expandedRecords st) then
    {| batchMode := batchMode st;
       expandedRecords := expandedRecords st ∖ {[compositeKey]};
       editingRecords := editingRecords st;
       editState := editState st;
       selectedRecords := selectedRecords st |}
  else
    {| batchMode := batchMode st;
       expandedRecords := expandedRecords st ∪ {[compositeKey]};
       editingRecords := editingRecords st;
       editState := editState st;
       selectedRecords := selectedRecords st |}.

Definition toggleRecordSelection {V} (compositeKey : string) (st : PageState V)
  : PageState V :=
  if decide (compositeKey ∈ selectedRecords st) then
    {| batchMode := batchMode st;
       expandedRecords := expandedRecords st;
       editingRecords := editingRecords st;
       editState := editState st;
       selectedRecords := selectedRecords st ∖ {[compositeKey]} |}
  else
    {| batchMode := batchMode st;
       expandedRecords := expandedRecords st;
       editingRecords := editingRecords st;
       editState := editState st;
       selectedRecords := selectedRecords st ∪ {[compositeKey]} |}.

(** The pending edit of a field of a record, if any
    ([editState[compositeKey]?.[field]]). *)
Definition pending_edit {V} (st : PageState V) (compositeKey field : string)
  : option V :=
  editState st !! compositeKey ≫= (fun edits => edits !! field).

(** The value of the last edit of a field of a record in a sequence of
    edits, if the sequence has one. *)
Fixpoint last_edit {V} (compositeKey field : string)
    (edits : list (string * string * V)) : option V :=
  match edits with
  | [] => None
  | e :: rest =>
      match last_edit compositeKey field rest with
      | Some v => Some v
      | None =>
          if decide (e.1.1 = compositeKey /\ e.1.2 = field) then Some e.2
          else None
      end
  end.

(** [editState[record.composite_key] || {}] *)
Definition edits_of (st : PageState JsValue) (compositeKey : string)
  : gmap string JsValue :=
  default ∅ (editState st !! compositeKey).

(** The [value] of the date input:
    [edits.next_payment_date || record.next_payment_date || ''] *)
Definition date_input_value (edits record : gmap string JsValue) : JsValue :=
  js_or (js_or (js_get edits "next_payment_date")
               (js_get record "next_payment_date"))
        (JsString EmptyString).

(** The [value] of the balance, arrears-balance and cost-centre inputs:
    [edits.f !== undefined ? edits.f : record.f || ''] *)
Definition field_input_value (field : string)
    (edits record : gmap string JsValue) : JsValue :=
  if decide (js_get edits field = JsUndefined)
  then js_or (js_get record field) (JsString EmptyString)
  else js_get edits field.

(** [s.replace(c, d)] with a one-character string pattern: the first
    occurrence is replaced, later ones stay. *)
Fixpoint js_replace (c d : ascii) (s : string) : string :=
  match s with
  | EmptyString => EmptyString
  | String a rest =>
      if Ascii.eqb a c then String d rest else String a (js_replace c d rest)
  end.

(** The text of a violation badge: [violation.replace('_', ' ')]. *)
Definition badge_text (violation : string) : string :=
  js_replace "_" " " violation.

(** Number of occurrences of a character in a string. *)
Fixpoint occurrences (c : ascii) (s : string) : nat :=
  match s with
  | EmptyString => O
  | String a rest =>
      ((if Ascii.eqb a c then 1 else 0) + occurrences c rest)%nat
  end.

(** ** The review page: pagination *)

Inductive ViolationTab : Type :=
| ALL
| OnlyKind (k : ViolationType).

(** The [useState] cells of the component that drive the records query. *)
Record Pager : Type := {
  activeTab : ViolationTab;
  currentPage : Z;
  pageSize : Z
}.

Definition initial_pager : Pager :=
  {| activeTab := ALL; currentPage := 0; pageSize := 50 |}.

(** [Math.ceil(a / b)] on integers, for a positive [b]. *)
Definition Math_ceil_div (a b : Z) : Z := - ((- a) / b).

Definition totalPages (totalCount : Z) (p : Pager) : Z :=
  Math_ceil_div totalCount (pageSize p).

Definition hasNextPage (totalCount : Z) (p : Pager) : bool :=
  currentPage p <? totalPages totalCount p - 1.

Definition hasPrevPage (p : Pager) : bool := 0 <? currentPage p.

(** The options of the page-size select. *)
Inductive PageSizeOption : Type :=
| Size25
| Size50
| Size100.

Definition option_value (o : PageSizeOption) : Z :=
  match o with
  | Size25 => 25
  | Size50 => 50
  | Size100 => 100
  end.

(** What the user can do to the pager: click a tab, pick a page size,
    click Previous or Next (top or bottom, same handlers). *)
Inductive PagerEvent : Type :=
| TabClick (t : ViolationTab)
| PageSizeChange (o : PageSizeOption)
| PreviousClick
| NextClick.

(** The handlers; [totalCount] is the total the records query holds when
    the event happens. *)
Definition pager_step (totalCount : Z) (p : Pager) (ev : PagerEvent) : Pager :=
  match ev with
  | TabClick t =>
      {| activeTab := t; currentPage := 0; pageSize := pageSize p |}
  | PageSizeChange o =>
      {| activeTab := activeTab p; currentPage := 0;
         pageSize := option_value o |}
  | PreviousClick =>
      if 0 <? currentPage p then
        {| activeTab := activeTab p; currentPage := currentPage p - 1;
           pageSize := pageSize p |}
      else p
  | NextClick =>
      if currentPage p <? totalPages totalCount p - 1 then
        {| activeTab := activeTab p; currentPage := currentPage p + 1;
           pageSize := pageSize p |}
      else p
  end.

(** A session: events, each with the total count held at that moment. *)
Definition pager_run (events : list (Z * PagerEvent)) (p : Pager) : Pager :=
  foldl (fun s e => pager_step e.1 s e.2) p events.

(** The options handed to the HTTP layer by a service call. *)
Record ApiRequestOptions : Type := {
  req_method : string;
  req_url : string;
  req_query : list (string * JsValue)
}.

Definition violation_type_param (v : option ViolationType) : JsValue :=
  match v with
  | Some k => JsString (kind_name k)
  | None => JsUndefined
  end.

Definition number_param (n : option Z) : JsValue :=
  match n with
  | Some z => JsNumber z
  | None => JsUndefined
  end.

(** [QuarantineService.getQuarantineRecordsApiQuarantineRecordsGet]; the
    limit defaults to 100 when it is not given. *)
Definition getQuarantineRecordsApiQuarantineRecordsGet
    (violationType : option ViolationType) (limit offset : option Z)
  : ApiRequestOptions :=
  {| req_method := "GET";
     req_url := "/api/quarantine/records";
     req_query :=
       [("violation_type", violation_type_param violationType);
        ("limit", JsNumber (default 100 limit));
        ("offset", number_param offset)] |}.

(** The [queryFn] of the records query. *)
Definition records_query (p : Pager) : ApiRequestOptions :=
  let violationType :=
    match activeTab p with
    | ALL => None
    | OnlyKind k => Some k
    end in
  let offset := currentPage p * pageSize p in
  getQuarantineRecordsApiQuarantineRecordsGet
    violationType (Some (pageSize p)) (Some offset).

(** The bounds shown in "Showing a-b of n records". *)
Definition showing_from (p : Pager) : Z := currentPage p * pageSize p + 1.

Definition showing_to (filteredCount : Z) (p : Pager) : Z :=
  Z.min ((currentPage p + 1) * pageSize p) filteredCount.

(** A session in which the records query holds the same total count
    throughout. *)
Definition pager_session (totalCount : Z) (events : list PagerEvent)
  : Pager :=
  pager_run (List.map (fun ev => (totalCount, ev)) events) initial_pager.

(** The page size is one of the options of the select. *)
Definition page_size_offered (p : Pager) : Prop :=
  pageSize p = 25 \/ pageSize p = 50 \/ pageSize p = 100.

(** ** The batch page ([client/src/pages/QuarantinePage.tsx]) *)

Module QuarantinePage.

(** A JavaScript object whose keys are enumerated in insertion order
    (the composite keys are not array indices), as a list of entries. *)
Fixpoint obj_get {A} (k : string) (o : list (string * A)) : option A :=
  match o with
  | [] => None
  | e :: rest => if String.eqb e.1 k then Some e.2 else obj_get k rest
  end.

(** [o[k] = v]: an existing key keeps its place, a new key goes last. *)
Fixpoint obj_set {A} (k : string) (v : A) (o : list (string * A))
  : list (string * A) :=
  match o with
  | [] => [(k, v)]
  | e :: rest =>
      if String.eqb e.1 k then (k, v) :: rest else e :: obj_set k v rest
  end.

(** [{...o, ...updates}] *)
Definition obj_assign {A} (o updates : list (string * A)) : list (string * A) :=
  foldl (fun acc e => obj_set e.1 e.2 acc) o updates.

(** [Object.values(o)] *)
Definition obj_values {A} (o : list (string * A)) : list A := o.*2.

(** A [Set<string>], in insertion order. *)
Definition set_add (k : string) (s : list string) : list string :=
  if decide (k ∈ s) then s else s ++ [k].

Definition set_delete (k : string) (s : list string) : list string :=
  filter (fun x => x <> k) s.

(** [s.has(v)] for a set of strings: only a string can be a member. *)
Definition set_has (v : JsValue) (s : list string) : bool :=
  match v with
  | JsString k => bool_decide (k ∈ s)
  | _ => false
  end.

(** The [useState] cells of the component. *)
Record State : Type := {
  activeTab : ViolationTab;
  selectedRecords : list string;
  editState : list (string * gmap string JsValue);
  batchMode : bool
}.

Definition initial : State :=
  {| activeTab := ALL; selectedRecords := []; editState := [];
     batchMode := false |}.

Definition handleRecordSelection (compositeKey : string) (selected : bool)
    (st : State) : State :=
  {| activeTab := activeTab st;
     selectedRecords :=
       if selected then set_add compositeKey (selectedRecords st)
       else set_delete compositeKey (selectedRecords st);
     editState := editState st;
     batchMode := batchMode st |}.

(** [{...edits, [field]: value, composite_key: compositeKey}] *)
Definition edited (compositeKey field : string) (value : JsValue)
    (edits : option (gmap string JsValue)) : gmap string JsValue :=
  <["composite_key" := JsString compositeKey]>
    (<[field := value]> (default ∅ edits)).

Definition handleFieldEdit (compositeKey field : string) (value : JsValue)
    (st : State) : State :=
  {| activeTab := activeTab st;
     selectedRecords := selectedRecords st;
     editState :=
       obj_set compositeKey
         (edited compositeKey field value (obj_get compositeKey (editState st)))
         (editState st);
     batchMode := batchMode st |}.

Definition handleBatchEdit (field : string) (value : JsValue) (st : State)
  : State :=
  let updates :=
    foldl (fun acc key =>
             obj_set key (edited key field value (obj_get key (editState st)))
               acc)
      [] (selectedRecords st) in
  {| activeTab := activeTab st;
     selectedRecords := selectedRecords st;
     editState := obj_assign (editState st) updates;
     batchMode := batchMode st |}.

(** [BatchUpdateRequest] as the page builds it. *)
Record BatchUpdateRequest : Type := {
  updates : list (gmap string JsValue);
  user_email : string
}.

(** What [handleSave] does: an alert, or one call of the merge mutation
    ([POST /api/quarantine/merge]) with the request. *)
Inductive SaveResult : Type :=
| AlertNoSelection
| MergeMutation (request : BatchUpdateRequest).

(** [selectedRecords.has(update.composite_key || '')] *)
Definition is_selected (st : State) (update : gmap string JsValue) : Prop :=
  set_has (js_or (js_get update "composite_key") (JsString EmptyString))
    (selectedRecords st) = true.

#[global] Instance is_selected_dec st update : Decision (is_selected st update).
Proof. unfold is_selected. apply _. Defined.

Definition handleSave (st : State) : SaveResult :=
  let updates := filter (is_selected st) (obj_values (editState st)) in
  if (length updates =? 0)%nat then AlertNoSelection
  else MergeMutation {| updates := updates;
                        user_email := "data-steward@company.com" |}.

(** [onSuccess] of the merge mutation. *)
Definition onSuccess (st : State) : State :=
  {| activeTab := activeTab st; selectedRecords := []; editState := [];
     batchMode := false |}.

Inductive Event : Type :=
| Select (compositeKey : string) (selected : bool)
| FieldEdit (compositeKey field : string) (value : JsValue)
| BatchEdit (field : string) (value : JsValue)
| ToggleBatchMode
| TabChange (t : ViolationTab)
| MergeSucceeded.

Definition step (st : State) (ev : Event) : State :=
  match ev with
  | Select k selected => handleRecordSelection k selected st
  | FieldEdit k field value => handleFieldEdit k field value st
  | BatchEdit field value => handleBatchEdit field value st
  | ToggleBatchMode =>
      {| activeTab := activeTab st; selectedRecords := selectedRecords st;
         editState := editState st; batchMode := negb (batchMode st) |}
  | TabChange t =>
      {| activeTab := t; selectedRecords := selectedRecords st;
         editState := editState st; batchMode := batchMode st |}
  | MergeSucceeded => onSuccess st
  end.

Definition run (events : list Event) : State := foldl step initial events.

(** The composite key an update carries. *)
Definition update_key (update : gmap string JsValue) : JsValue :=
  js_get update "composite_key".

(** The edit buffer is well keyed: no key occurs twice and every entry
    carries the composite key it is stored under. *)
Definition well_keyed (o : list (string * gmap string JsValue)) : Prop :=
  NoDup o.*1 /\
  forall k u, (k, u) ∈ o -> u !! "composite_key" = Some (JsString k).

(** A session: a record is selected and edited, another one is edited
    without being selected. *)
Definition sample_events : list Event :=
  [Select "42|2024-01-01|QUARANTINED" true;
   FieldEdit "42|2024-01-01|QUARANTINED" "balance" (JsNumber 250);
   FieldEdit "7|2024-02-01|QUARANTINED" "balance" (JsNumber 5)].

(** A session in which the only edit is on a record that is not
    selected. *)
Definition unselected_events : list Event :=
  [FieldEdit "7|2024-02-01|QUARANTINED" "balance" (JsNumber 5)].

End QuarantinePage.

(** ** More sample data *)

(** A record whose editable fields all hold values of the expected
    types. *)
Definition typed_record : dict :=
  {[ "next_payment_date" := Str "2020-12-31";
     "balance" := Int 15;
     "arrears_balance" := Int 0;
     "cost_center_code" := Str "CC-9" ]}.

(** A record as the page receives it. *)
Definition stored_js_record : gmap string JsValue :=
  {[ "next_payment_date" := JsString "2019-05-01"; "balance" := JsNumber 40 ]}.

(** * Properties *)

(** ** The Validator *)

Lemma bind_Ok {A B} (m : result A) (k : A -> result B) (b : B) :
  m ≫= k = Ok b <-> exists a, m = Ok a /\ k a = Ok b.
Proof.
  destruct m as [a|e]; simpl; split.
  - intros H. exists a. split; [reflexivity | exact H].
  - intros (a' & Ha & Hk). inversion Ha; subst. exact Hk.
  - intros H. discriminate H.
  - intros (a' & Ha & _). discriminate Ha.
Qed.

Lemma fmap_Ok {A B} (f : A -> B) (m : result A) (b : B) :
  f <$> m = Ok b <-> exists a, m = Ok a /\ b = f a.
Proof.
  destruct m as [a|e]; simpl; split.
  - intros H. inversion H. eauto.
  - intros (a' & Ha & ->). inversion Ha; subst. reflexivity.
  - intros H. discriminate H.
  - intros (a' & Ha & _). discriminate Ha.
Qed.

Lemma evaluate_true kind record :
  evaluate kind record = Ok true <-> violated kind record = Ok false.
Proof.
  unfold evaluate. rewrite fmap_Ok. split.
  - intros ([] & H & E); [discriminate E | exact H].
  - intros H. exists false. split; [exact H | reflexivity].
Qed.

(** Python's [s <= c] is false exactly when [c < s]. *)
Lemma not_leb_ltb (s c : string) :
  String.leb s c = false <-> String.ltb c s = true.
Proof.
  unfold String.leb, String.ltb. rewrite (String.compare_antisym c s).
  destruct (String.compare s c); simpl; split; congruence.
Qed.

Lemma forallb_failed_kinds (l : list (ViolationType * bool)) :
  forallb snd l = true <-> failed_kinds l = [].
Proof.
  unfold failed_kinds. induction l as [|[k p] l IH]; simpl.
  - split; reflexivity.
  - destruct p; simpl.
    + exact IH.
    + split; intros H; discriminate H.
Qed.

(** The violation list of [validate] is the list [detect_violations]
    computes, and the two raise on the same records. *)
Lemma validate_detect_violations (record : dict) :
  violations <$> validate record = detect_violations record.
Proof.
  unfold validate, detect_violations, registry. simpl.
  unfold evaluate. simpl.
  destruct (payment_date_violated record) as [[]|]; simpl; [| |reflexivity];
    (destruct (balance_violated record) as [[]|]; simpl; [| |reflexivity]);
    (destruct (cost_center_violated record) as [[]|]; simpl; reflexivity).
Qed.

(** C2: whenever validate produces a ValidationResult, its [is_valid]
    flag is true exactly when its violation list is empty; no result has
    [is_valid = true] together with a violation. *)
Theorem validate_valid_iff_no_violations (record : dict) (res : ValidationResult) :
  validate record = Ok res ->
  (is_valid res = true <-> violations res = []) /\
  ~ (is_valid res = true /\ violations res <> []).
Proof.
  unfold validate. intros H. apply bind_Ok in H as (outs & _ & H).
  inversion H; subst; clear H. simpl.
  pose proof (forallb_failed_kinds outs) as Hiff.
  split; [exact Hiff|]. intros [Hv Hne]. apply Hne, Hiff, Hv.
Qed.

Lemma validate_valid_iff_no_violations_witness :
  exists res, validate sample_record = Ok res /\
    (is_valid res = true <-> violations res = []) /\
    ~ (is_valid res = true /\ violations res <> []).
Proof.
  eexists. split; [vm_compute; reflexivity|].
  apply (validate_valid_iff_no_violations sample_record). vm_compute. reflexivity.
Defined.

(** ** The constraints *)

Lemma payment_date_satisfied_iff (record : dict) :
  evaluate PAYMENT_DATE record = Ok true <->
  exists d, record !! "next_payment_date" = Some (Str d) /\
            String.ltb CUTOFF d = true.
Proof.
  rewrite evaluate_true. simpl. unfold payment_date_violated, getitem.
  destruct (record !! "next_payment_date") as [[| d | z]|]; simpl.
  - split; [intros H; discriminate H | intros (d & H & _); discriminate H].
  - split.
    + intros H. exists d. split; [reflexivity|].
      apply not_leb_ltb. congruence.
    + intros (d' & H & Hlt). inversion H; subst d'.
      apply not_leb_ltb in Hlt. rewrite Hlt. reflexivity.
  - split; [intros H; discriminate H | intros (d & H & _); discriminate H].
  - split; [intros H; discriminate H | intros (d & H & _); discriminate H].
Qed.

Lemma balance_satisfied_iff (record : dict) :
  evaluate BALANCE record = Ok true <->
  exists b a, record !! "balance" = Some (Int b) /\
              record !! "arrears_balance" = Some (Int a) /\
              0 < b /\ 0 < a.
Proof.
  rewrite evaluate_true. simpl. unfold balance_violated, getitem.
  destruct (record !! "balance") as [[| s | b]|]; simpl;
    try (split; [intros H; discriminate H
                | intros (b' & a' & H & _); discriminate H]).
  destruct (Z.leb_spec b 0) as [Hb|Hb]; simpl.
  - split; [intros H; discriminate H|].
    intros (b' & a' & H & _ & Hpos & _). inversion H; subst. lia.
  - destruct (record !! "arrears_balance") as [[| s | a]|]; simpl;
      try (split; [intros H; discriminate H
                  | intros (b' & a' & _ & H & _); discriminate H]).
    destruct (Z.leb_spec a 0) as [Ha|Ha]; split.
    + intros H. discriminate H.
    + intros (b' & a' & _ & H & _ & Hpos). inversion H; subst. lia.
    + intros _. exists b, a. repeat split; [exact Hb | exact Ha].
    + reflexivity.
Qed.

Lemma apply_date_update (base : dict) (key date : string) :
  apply_update base (date_update key date) =
  <["next_payment_date" := Str date]> base.
Proof. reflexivity. Qed.

Lemma apply_balance_update (base : dict) (key : string) (amount : Z) :
  apply_update base (balance_update key amount) =
  <["balance" := Int amount]> base.
Proof. reflexivity. Qed.

Lemma getitem_insert_ne (record : dict) (f g : string) (v : value) :
  f <> g -> getitem (<[f := v]> record) g = getitem record g.
Proof. intros H. unfold getitem. rewrite lookup_insert_ne; [reflexivity | exact H]. Qed.

Lemma getitem_insert_eq (record : dict) (f : string) (v : value) :
  getitem (<[f := v]> record) f = Ok v.
Proof. unfold getitem. rewrite lookup_insert_eq. reflexivity. Qed.

(** Changing the payment date leaves the other two checks as they were. *)
Lemma date_update_other_checks (base : dict) (v : value) :
  balance_violated (<["next_payment_date" := v]> base) = balance_violated base /\
  cost_center_violated (<["next_payment_date" := v]> base) = cost_center_violated base.
Proof.
  unfold balance_violated, cost_center_violated.
  rewrite !getitem_insert_ne by discriminate. split; reflexivity.
Qed.

(** A record for which [detect_violations] reports exactly one kind
    violates only that kind. *)
Lemma detect_violates_only (record : dict) :
  detect_violations record = Ok [PAYMENT_DATE] ->
  violates_only PAYMENT_DATE record.
Proof.
  unfold detect_violations, violates_only, evaluate. simpl. intros H k.
  destruct (payment_date_violated record) as [[]|] eqn:E1; simpl in H;
    try discriminate H;
    (destruct (balance_violated record) as [[]|] eqn:E2; simpl in H;
      try discriminate H);
    (destruct (cost_center_violated record) as [[]|] eqn:E3; simpl in H;
      try discriminate H).
  destruct k; simpl; rewrite ?E1, ?E2, ?E3; simpl; split; congruence.
Qed.

(** C3: the PAYMENT_DATE constraint is satisfied exactly when
    [next_payment_date] is present and strictly greater than the cutoff
    2020-12-31; and for a base record that violates only PAYMENT_DATE, an
    update setting [next_payment_date] to 2024-06-01 makes validate return
    a valid result with no violations. *)
Theorem payment_date_constraint :
  (forall record : dict,
     evaluate PAYMENT_DATE record = Ok true <->
     exists d, record !! "next_payment_date" = Some (Str d) /\
               String.ltb "2020-12-31" d = true) /\
  (forall (base : dict) (key : string),
     violates_only PAYMENT_DATE base ->
     exists res,
       validate (apply_update base (date_update key "2024-06-01")) = Ok res /\
       is_valid res = true /\ violations res = []).
Proof.
  split; [exact payment_date_satisfied_iff|].
  intros base key Honly.
  assert (Hb : violated BALANCE base = Ok false).
  { apply evaluate_true, Honly. discriminate. }
  assert (Hc : violated COST_CENTER base = Ok false).
  { apply evaluate_true, Honly. discriminate. }
  simpl in Hb, Hc.
  destruct (date_update_other_checks base (Str "2024-06-01")) as [Eb Ec].
  rewrite apply_date_update. eexists.
  unfold validate, registry, run_constraints, evaluate. simpl.
  rewrite Eb, Ec, Hb, Hc.
  unfold payment_date_violated. rewrite getitem_insert_eq. simpl.
  split; [reflexivity|]. split; reflexivity.
Qed.

Lemma payment_date_constraint_witness :
  violates_only PAYMENT_DATE sample_record /\
  exists res,
    validate (apply_update sample_record
                (date_update "42|2024-01-01|QUARANTINED" "2024-06-01")) = Ok res /\
    is_valid res = true /\ violations res = [].
Proof.
  assert (H : violates_only PAYMENT_DATE sample_record).
  { apply detect_violates_only. vm_compute. reflexivity. }
  split; [exact H|].
  exact (proj2 payment_date_constraint sample_record
           "42|2024-01-01|QUARANTINED" H).
Defined.

(** Whenever validate returns for a candidate whose balance is a
    non-positive integer, the result is invalid and lists BALANCE. *)
Lemma nonpositive_balance_reported (record : dict) (b : Z) (res : ValidationResult) :
  record !! "balance" = Some (Int b) -> b <= 0 ->
  validate record = Ok res ->
  is_valid res = false /\ In BALANCE (violations res).
Proof.
  intros Hbal Hb. unfold validate, registry, run_constraints, evaluate. simpl.
  assert (E : balance_violated record = Ok true).
  { unfold balance_violated, getitem. rewrite Hbal. simpl.
    destruct (Z.leb_spec b 0); [reflexivity | lia]. }
  rewrite E.
  destruct (payment_date_violated record) as [p|]; simpl; [|discriminate].
  destruct (cost_center_violated record) as [c|]; simpl; [|discriminate].
  intros H. inversion H; subst; clear H. simpl.
  split.
  - rewrite andb_false_r. reflexivity.
  - unfold failed_kinds. simpl. destruct p; simpl; auto.
Qed.

(** C4 (at the failing input): for a quarantined record whose payment
    date is null, the update setting [balance] to -5 does not make
    validate return an invalid result listing BALANCE: the payment-date
    comparison raises [TypeError] before the balance is looked at. *)
Theorem negative_balance_update_raises :
  detect_violations (apply_update null_date_record
                       (balance_update "7|2024-02-01|QUARANTINED" (-5)))
    = Raise TypeError /\
  validate (apply_update null_date_record
              (balance_update "7|2024-02-01|QUARANTINED" (-5)))
    = Raise TypeError.
Proof. split; vm_compute; reflexivity. Qed.

Example null_cost_center_reported :
  detect_violations null_cost_center_record = Ok [COST_CENTER].
Proof. vm_compute. reflexivity. Qed.

(** C5 (at the failing inputs): on a record whose [next_payment_date] is
    null, and on one whose [balance] key is missing, violation detection
    raises an exception instead of returning a result that records the
    absence as a violation. *)
Theorem detect_violations_raises_on_absent_field :
  detect_violations null_date_record = Raise TypeError /\
  validate null_date_record = Raise TypeError /\
  detect_violations missing_balance_record = Raise (KeyError "balance") /\
  validate missing_balance_record = Raise (KeyError "balance").
Proof. repeat split; vm_compute; reflexivity. Qed.

(** ** The pipeline trigger *)

(** The next call sees the same lookup result: a call changes neither
    what [jobs.list] returns nor how the call ends. *)
Lemma trigger_pipeline_again (name : string) (self self' : PipelineService) :
  trigger_pipeline name self = Ok self' ->
  call_outcome (trigger_pipeline name self') = None /\
  runs_added name self' = runs_added name self /\
  (length (runs_added name self) <= 1)%nat /\
  service_runs self' = service_runs self ++ runs_added name self.
Proof.
  intros H. destruct self as [[[jl rs]|]]; [|discriminate H].
  unfold runs_added. rewrite H.
  unfold trigger_pipeline, getattr_client, service_runs in *. simpl in *.
  destruct (jl name) as [|job|items] eqn:Ej; simpl in H.
  - inversion H; subst self'. simpl. rewrite Ej. simpl.
    rewrite drop_all. simpl. rewrite app_nil_r. repeat split; lia.
  - inversion H; subst self'. simpl. rewrite Ej. simpl.
    rewrite !drop_app_length. simpl. repeat split; lia.
  - discriminate H.
Qed.

(** C8 (as the code has it): [trigger_pipeline] takes a pipeline name
    and no batch_id, gives back no value, and keeps no record of earlier
    calls, so nothing de-duplicates: each of [n] calls in a row ends the
    way the first one did (normally, or with the same exception) and
    records the runs the first one recorded, at most one per call. *)
Theorem trigger_pipeline_runs_every_call (n : nat) (name : string)
    (self : PipelineService) :
  (trigger_repeatedly n name self).2 =
    replicate n (call_outcome (trigger_pipeline name self)) /\
  service_runs (trigger_repeatedly n name self).1 =
    service_runs self ++ mjoin (replicate n (runs_added name self)) /\
  (length (runs_added name self) <= 1)%nat.
Proof.
  assert (Hlen : forall s, (length (runs_added name s) <= 1)%nat).
  { intros s. unfold runs_added.
    destruct (trigger_pipeline name s) as [s'|e] eqn:E; [|simpl; lia].
    pose proof (trigger_pipeline_again name s s' E) as (_ & _ & H & _).
    unfold runs_added in H. rewrite E in H. exact H. }
  split; [|split; [|apply Hlen]].
  - revert self. induction n as [|n IH]; intros self; [reflexivity|].
    simpl. destruct (trigger_pipeline name self) as [self'|e] eqn:E.
    + specialize (IH self').
      destruct (trigger_repeatedly n name self') as [final log]. simpl in *.
      rewrite IH.
      destruct (trigger_pipeline_again name self self' E) as (Ho & _).
      destruct (trigger_pipeline name self'); simpl in *;
        [reflexivity | discriminate Ho].
    + specialize (IH self).
      destruct (trigger_repeatedly n name self) as [final log]. simpl in *.
      rewrite IH, E. reflexivity.
  - revert self. induction n as [|n IH]; intros self.
    + simpl. rewrite app_nil_r. reflexivity.
    + simpl. destruct (trigger_pipeline name self) as [self'|e] eqn:E.
      * specialize (IH self').
        destruct (trigger_repeatedly n name self') as [final log].
        simpl in *. rewrite IH.
        destruct (trigger_pipeline_again name self self' E)
          as (_ & Hsame & _ & Hruns).
        rewrite Hsame, Hruns, <- app_assoc. reflexivity.
      * specialize (IH self).
        destruct (trigger_repeatedly n name self) as [final log].
        simpl in *. rewrite IH.
        assert (Ea : runs_added name self = [])
          by (unfold runs_added; rewrite E; reflexivity).
        rewrite Ea. reflexivity.
Qed.

(** With the SDK's client, whose [jobs.list] returns an iterator, the
    first call does not return [true] and a second call is not skipped
    with [false]: both raise [AttributeError] on [job.job_id], and no
    call returns normally. *)
Lemma trigger_first_call_raises :
  trigger_pipeline DEFAULT_PIPELINE sample_service
    = Raise (AttributeError "job_id") /\
  trigger_repeatedly 2 DEFAULT_PIPELINE sample_service =
    (sample_service,
     [Some (AttributeError "job_id"); Some (AttributeError "job_id")]) /\
  ~ (exists self', trigger_pipeline DEFAULT_PIPELINE sample_service = Ok self').
Proof.
  split; [reflexivity|]. split; [reflexivity|].
  intros [self' H]. discriminate H.
Qed.

(** With a client whose lookup hands back a job object, two calls in a
    row run the job twice. *)
Example job_object_client_runs_twice :
  service_runs
    (trigger_repeatedly 2 DEFAULT_PIPELINE
       {| client := Some job_object_client |}).1 = [811; 811].
Proof. reflexivity. Qed.

(** ** The statistics cards *)

(** C9: once the violation-counts query holds data, the Total
    Quarantined card shows the maximum of the three per-kind counts of
    that response (a missing count taken as 0) and 1337; so when the
    three counts are below 1337 it shows 1337, whatever the record query
    reports as total.  A response without the counts object also gives
    1337. *)
Theorem total_quarantined_max_1337 (q : Queries)
    (resp : ViolationCountsResponse) :
  totalViolationCounts q = Some resp ->
  (forall pd bal cc : option Z,
     violation_counts resp =
       Some {| count_PAYMENT_DATE := pd; count_BALANCE := bal;
               count_COST_CENTER := cc |} ->
     totalQuarantinedCount q =
       Z.max (Z.max (Z.max (default 0 pd) (default 0 bal)) (default 0 cc)) 1337 /\
     (default 0 pd < 1337 -> default 0 bal < 1337 -> default 0 cc < 1337 ->
      totalQuarantinedCount q = 1337)) /\
  (violation_counts resp = None -> totalQuarantinedCount q = 1337) /\
  (isLoading q = false -> error q = false ->
   displayed "Total Quarantined" (render q) = Some (totalQuarantinedCount q)).
Proof.
  intros Hdata. split; [|split].
  - intros pd bal cc Hvc.
    assert (E : totalQuarantinedCount q =
                Z.max (Z.max (Z.max (default 0 pd) (default 0 bal))
                         (default 0 cc)) 1337).
    { unfold totalQuarantinedCount, violationCounts. rewrite Hdata. simpl.
      rewrite Hvc. simpl. destruct pd, bal, cc; reflexivity. }
    split; [exact E|]. intros H1 H2 H3. rewrite E. lia.
  - intros Hvc. unfold totalQuarantinedCount, violationCounts.
    rewrite Hdata. simpl. rewrite Hvc. reflexivity.
  - intros Hl He. unfold render. rewrite Hl, He. reflexivity.
Qed.

Lemma total_quarantined_max_1337_witness :
  totalQuarantinedCount sample_queries = 1337 /\
  displayed "Total Quarantined" (render sample_queries) = Some 1337 /\
  totalQuarantinedCount large_queries = 2000.
Proof.
  pose proof (total_quarantined_max_1337 sample_queries _ eq_refl)
    as (Hcounts & _ & Hshown).
  destruct (Hcounts (Some 5) (Some 4) (Some 3) eq_refl) as [_ Hlow].
  assert (E : totalQuarantinedCount sample_queries = 1337).
  { apply Hlow; simpl; lia. }
  split; [exact E|]. split.
  - rewrite <- E. apply Hshown; reflexivity.
  - pose proof (total_quarantined_max_1337 large_queries _ eq_refl)
      as (Hlarge & _).
    destruct (Hlarge (Some 2000) None (Some 3) eq_refl) as [Hmax _].
    rewrite Hmax. reflexivity.
Defined.

(** ** The Save Changes button *)

Lemma apply_edits_editing {V} (edits : list (string * string * V))
    (st : PageState V) :
  editingRecords (apply_edits edits st) = editingRecords st.
Proof.
  revert st. induction edits as [|e edits IH]; intros st; [reflexivity|].
  unfold apply_edits in *. simpl. rewrite IH. reflexivity.
Qed.

(** C10: for a record being edited and any sequence of field edits,
    clicking Save Changes issues no API request (it only logs to the
    console), so the backend is left as it was; it turns edit mode off
    for the record and deletes the record's pending edits from the edit
    buffer, leaving the edits of other records alone. *)
Theorem save_changes_discards_edits {V S : Type}
    (handle : string -> string -> S -> S) (server : S)
    (st : PageState V) (key : string) (edits : list (string * string * V)) :
  key ∈ editingRecords st ->
  let st1 := apply_edits edits st in
  let st2 := (save_click key st1).1 in
  let effects := (save_click key st1).2 in
  save_button_shown key st1 = true /\
  effects = [ConsoleLog "Save changes for:"] /\
  existsb is_api_request effects = false /\
  perform_all handle effects server = server /\
  (key ∉ editingRecords st2) /\
  editState st2 !! key = None /\
  (forall other, other <> key -> editState st2 !! other = editState st1 !! other).
Proof.
  intros Hediting st1 st2 effects.
  assert (H1 : key ∈ editingRecords st1).
  { subst st1. rewrite apply_edits_editing. exact Hediting. }
  assert (E2 : st2 = toggleRecordEditing key st1) by reflexivity.
  unfold toggleRecordEditing in E2.
  destruct (decide (key ∈ editingRecords st1)) as [_|Hn]; [|contradiction].
  repeat split.
  - unfold save_button_shown. apply bool_decide_eq_true. exact H1.
  - rewrite E2. simpl. intros Hin. apply elem_of_difference in Hin as [_ Hin].
    apply Hin, elem_of_singleton. reflexivity.
  - rewrite E2. simpl. apply lookup_delete_eq.
  - intros other Hne. rewrite E2. simpl. apply lookup_delete_ne. congruence.
Qed.

Lemma save_changes_discards_edits_witness :
  let st1 := apply_edits [("42|2024-01-01|QUARANTINED", "balance", 250)] sample_page in
  editState st1 !! "42|2024-01-01|QUARANTINED" = Some {[ "balance" := 250 ]} /\
  editState (save_click "42|2024-01-01|QUARANTINED" st1).1
    !! "42|2024-01-01|QUARANTINED" = None /\
  perform_all (fun _ _ (n : nat) => Datatypes.S n)
    (save_click "42|2024-01-01|QUARANTINED" st1).2 0%nat = 0%nat.
Proof.
  assert (Hin : "42|2024-01-01|QUARANTINED" ∈ editingRecords sample_page).
  { apply elem_of_singleton. reflexivity. }
  pose proof (save_changes_discards_edits (fun _ _ (n : nat) => Datatypes.S n) 0%nat
                sample_page "42|2024-01-01|QUARANTINED"
                [("42|2024-01-01|QUARANTINED", "balance", 250)] Hin)
    as (_ & _ & _ & Hserver & _ & Hgone & _).
  split; [|split; [exact Hgone | exact Hserver]].
  vm_compute. reflexivity.
Defined.

(** ** The merge engine *)

Lemma retry_delete_delete (n : nat) (k : string) (q : gmap string QuarantineEntry) :
  retry_delete n k q = delete k q.
Proof. induction n as [|n IH]; simpl; [reflexivity | exact IH]. Qed.

Lemma load_base_lookup (q : gmap string QuarantineEntry) (keys : list string)
    (k : string) :
  load_base q keys !! k =
  if decide (k ∈ keys) then q_record <$> q !! k else None.
Proof.
  induction keys as [|k0 keys IH]; simpl.
  - rewrite lookup_empty. destruct (decide (k ∈ [])) as [H|_]; [|reflexivity].
    apply elem_of_nil in H. destruct H.
  - destruct (decide (k = k0)) as [->|Hne].
    + destruct (decide (k0 ∈ k0 :: keys)) as [_|Hn];
        [|exfalso; apply Hn; left].
      destruct (q !! k0) as [e|] eqn:E; simpl.
      * rewrite lookup_insert_eq. reflexivity.
      * rewrite IH. destruct (decide (k0 ∈ keys)); reflexivity.
    + assert (Hiff : k ∈ k0 :: keys <-> k ∈ keys).
      { rewrite elem_of_cons. tauto. }
      assert (Hl : (match q !! k0 with
                    | Some e => <[k0 := q_record e]> (load_base q keys)
                    | None => load_base q keys
                    end) !! k = load_base q keys !! k).
      { destruct (q !! k0); [rewrite lookup_insert_ne by congruence|]; reflexivity. }
      rewrite Hl, IH.
      destruct (decide (k ∈ keys)) as [Hin|Hnin];
        destruct (decide (k ∈ k0 :: keys)) as [Hin'|Hnin']; try reflexivity;
        tauto.
Qed.

#[local] Arguments merge_item : simpl never.

Lemma merge_item_outcome env actor sys done it :
  (merge_item env actor (sys, done) it).2 =
  done ++ [(item_key it, item_outcome env it)].
Proof.
  unfold merge_item, item_outcome.
  destruct (item_candidate it); [|reflexivity].
  destruct (is_valid (item_result it)); [|reflexivity].
  destruct (write_fails env (item_key it)); reflexivity.
Qed.

Lemma merge_items_outcomes env actor l acc :
  (foldl (merge_item env actor) acc l).2 =
  acc.2 ++ List.map (fun it => (item_key it, item_outcome env it)) l.
Proof.
  revert acc. induction l as [|it l IH]; intros [sys done]; simpl.
  - rewrite app_nil_r. reflexivity.
  - rewrite IH, merge_item_outcome, <- app_assoc. reflexivity.
Qed.

Lemma process_update_outcome env q keys u :
  upd_key u ∈ keys ->
  item_key (process_update env (load_base q keys) u) = upd_key u /\
  item_outcome env (process_update env (load_base q keys) u) =
  record_outcome env q u.
Proof.
  intros Hin. unfold process_update, record_outcome, item_outcome.
  rewrite load_base_lookup. destruct (decide (upd_key u ∈ keys)); [|contradiction].
  destruct (q !! upd_key u) as [entry|]; simpl; split; reflexivity.
Qed.

(** One step keeps the two stores disjoint. *)
Lemma merge_item_disjoint env actor sys done it :
  stores_disjoint sys ->
  stores_disjoint (merge_item env actor (sys, done) it).1.
Proof.
  intros Hd. unfold merge_item.
  destruct (item_candidate it) as [candidate|]; [|exact Hd].
  destruct (is_valid (item_result it)).
  - destruct (write_fails env (item_key it)); [exact Hd|].
    intros k. simpl. rewrite retry_delete_delete.
    destruct (decide (k = item_key it)) as [->|Hne].
    + left. apply lookup_delete_eq.
    + rewrite lookup_delete_ne, lookup_insert_ne by congruence. apply Hd.
  - intros k. simpl. destruct (Hd k) as [Hq|Hc]; [left|right; exact Hc].
    rewrite lookup_alter. case_decide; [subst; rewrite Hq|]; done.
Qed.

(** One step never makes a key vanish from both stores. *)
Lemma merge_item_present env actor sys done it k :
  in_quarantine sys k \/ in_clean sys k ->
  in_quarantine (merge_item env actor (sys, done) it).1 k \/
  in_clean (merge_item env actor (sys, done) it).1 k.
Proof.
  unfold in_quarantine, in_clean, merge_item. intros H.
  destruct (item_candidate it) as [candidate|]; [|exact H].
  destruct (is_valid (item_result it)).
  - destruct (write_fails env (item_key it)); [exact H|].
    simpl. rewrite retry_delete_delete.
    destruct (decide (k = item_key it)) as [->|Hne].
    + right. rewrite lookup_insert_eq. eauto.
    + rewrite lookup_delete_ne, lookup_insert_ne by congruence. exact H.
  - simpl. destruct H as [Hq|Hc]; [left|right; exact Hc].
    rewrite lookup_alter. case_decide; [subst|exact Hq].
    destruct Hq as [e ->]. simpl. eauto.
Qed.

(** One step never adds a key to the quarantine table. *)
Lemma merge_item_quarantine_none env actor sys done it k :
  quarantine sys !! k = None ->
  quarantine (merge_item env actor (sys, done) it).1 !! k = None.
Proof.
  unfold merge_item. intros H.
  destruct (item_candidate it) as [candidate|]; [|exact H].
  destruct (is_valid (item_result it)).
  - destruct (write_fails env (item_key it)); [exact H|].
    simpl. rewrite retry_delete_delete.
    destruct (decide (k = item_key it)) as [->|Hne];
      [apply lookup_delete_eq | rewrite lookup_delete_ne by congruence; exact H].
  - simpl. rewrite lookup_alter. case_decide; [subst; rewrite H|]; done.
Qed.

(** A record whose step reports [Merged] has left the quarantine table. *)
Lemma merge_item_merged_gone env actor sys done it :
  item_outcome env it = Merged ->
  quarantine (merge_item env actor (sys, done) it).1 !! item_key it = None.
Proof.
  unfold merge_item, item_outcome.
  destruct (item_candidate it) as [candidate|]; [|discriminate].
  destruct (is_valid (item_result it)); [|discriminate].
  destruct (write_fails env (item_key it)); [discriminate|].
  intros _. simpl. rewrite retry_delete_delete. apply lookup_delete_eq.
Qed.

(** An invariant of every step is an invariant of the whole batch. *)
Lemma merge_items_invariant env actor (P : System -> Prop) :
  (forall sys done it, P sys -> P (merge_item env actor (sys, done) it).1) ->
  forall l acc, P acc.1 -> P (foldl (merge_item env actor) acc l).1.
Proof.
  intros Hstep l. induction l as [|it l IH]; intros [sys done] HP; simpl.
  - exact HP.
  - apply IH. apply Hstep. exact HP.
Qed.

Lemma merge_items_merged_gone env actor l acc k :
  (k, Merged) ∈ (foldl (merge_item env actor) acc l).2 ->
  (k, Merged) ∈ acc.2 \/
  quarantine (foldl (merge_item env actor) acc l).1 !! k = None.
Proof.
  revert acc. induction l as [|it l IH]; intros [sys done]; simpl.
  - intros H. left. exact H.
  - intros H. apply IH in H as [H|H]; [|right; exact H].
    rewrite merge_item_outcome in H.
    apply elem_of_app in H as [H|H]; [left; exact H|].
    apply list_elem_of_singleton in H. inversion H as [[Hk Ho]].
    right.
    apply (merge_items_invariant env actor
             (fun s => quarantine s !! item_key it = None)).
    + intros s d i. apply merge_item_quarantine_none.
    + apply merge_item_merged_gone. symmetry. exact Ho.
Qed.

Lemma trigger_after_stores n sys :
  quarantine (trigger_after n sys).1 = quarantine sys /\
  clean (trigger_after n sys).1 = clean sys.
Proof.
  unfold trigger_after. destruct (0 <? n)%nat; [|split; reflexivity].
  destruct (trigger_pipeline DEFAULT_PIPELINE
              {| client := Some (workspace sys) |});
    split; reflexivity.
Qed.

(** What [merge] returns for a batch without duplicate keys. *)
Lemma merge_accepted env sys updates actor :
  has_duplicate_keys updates = false ->
  let batch := List.map (process_update env
                      (load_base (quarantine sys) (update_keys updates))) updates in
  let final := foldl (merge_item env actor) (sys, []) batch in
  exists mr,
    merge env sys updates actor =
      (inr mr, (trigger_after (length (List.filter is_merged final.2)) final.1).1) /\
    outcomes mr = final.2.
Proof.
  intros Hdup batch final. unfold merge, process. rewrite Hdup. simpl.
  fold batch. fold final. destruct final as [sys1 done]. simpl.
  destruct (trigger_after (length (List.filter is_merged done)) sys1)
    as [sys2 fired]. simpl.
  eexists. split; reflexivity.
Qed.

Lemma merge_rejected env sys updates actor :
  has_duplicate_keys updates = true ->
  merge env sys updates actor = (inl DUPLICATE_KEY, sys).
Proof. intros Hdup. unfold merge, process. rewrite Hdup. reflexivity. Qed.

Lemma merge_outcomes env sys updates actor mr :
  (merge env sys updates actor).1 = inr mr ->
  has_duplicate_keys updates = false /\
  outcomes mr =
    List.map (fun u => (upd_key u, record_outcome env (quarantine sys) u)) updates.
Proof.
  intros Hmr.
  destruct (has_duplicate_keys updates) eqn:Hdup.
  { rewrite merge_rejected in Hmr by exact Hdup. discriminate Hmr. }
  split; [reflexivity|].
  destruct (merge_accepted env sys updates actor Hdup) as (mr' & Hm & Hout).
  rewrite Hm in Hmr. simpl in Hmr. inversion Hmr; subst mr'. rewrite Hout.
  rewrite merge_items_outcomes. simpl. rewrite List.map_map.
  apply List.map_ext_in. intros u Hu.
  assert (Hin : upd_key u ∈ update_keys updates).
  { apply list_elem_of_In. unfold update_keys. apply List.in_map. exact Hu. }
  destruct (process_update_outcome env (quarantine sys) _ u Hin) as [-> ->].
  reflexivity.
Qed.

Lemma merge_merged_gone env sys updates actor mr k :
  (merge env sys updates actor).1 = inr mr ->
  (k, Merged) ∈ outcomes mr ->
  quarantine (merge env sys updates actor).2 !! k = None.
Proof.
  intros Hmr Hk.
  destruct (has_duplicate_keys updates) eqn:Hdup.
  { rewrite merge_rejected in Hmr by exact Hdup. discriminate Hmr. }
  destruct (merge_accepted env sys updates actor Hdup) as (mr' & Hm & Hout).
  rewrite Hm in Hmr |- *. simpl in Hmr |- *. inversion Hmr; subst mr'.
  rewrite (proj1 (trigger_after_stores _ _)).
  rewrite Hout in Hk. apply merge_items_merged_gone in Hk as [Hk|Hk].
  - simpl in Hk. apply elem_of_nil in Hk. destruct Hk.
  - exact Hk.
Qed.

Lemma merge_disjoint env sys updates actor :
  stores_disjoint sys -> stores_disjoint (merge env sys updates actor).2.
Proof.
  intros Hd.
  destruct (has_duplicate_keys updates) eqn:Hdup.
  { rewrite merge_rejected by exact Hdup. exact Hd. }
  destruct (merge_accepted env sys updates actor Hdup) as (mr & Hm & _).
  rewrite Hm. simpl. intros k.
  destruct (trigger_after_stores
              (length (List.filter is_merged
                 (foldl (merge_item env actor) (sys, [])
                    (List.map (process_update env
                       (load_base (quarantine sys) (update_keys updates)))
                       updates)).2))
              (foldl (merge_item env actor) (sys, [])
                 (List.map (process_update env
                    (load_base (quarantine sys) (update_keys updates)))
                    updates)).1) as [-> ->].
  apply (merge_items_invariant env actor stores_disjoint).
  - intros s d i. apply merge_item_disjoint.
  - exact Hd.
Qed.

Lemma merge_present env sys updates actor k :
  in_quarantine sys k \/ in_clean sys k ->
  in_quarantine (merge env sys updates actor).2 k \/
  in_clean (merge env sys updates actor).2 k.
Proof.
  intros Hp.
  destruct (has_duplicate_keys updates) eqn:Hdup.
  { rewrite merge_rejected by exact Hdup. exact Hp. }
  destruct (merge_accepted env sys updates actor Hdup) as (mr & Hm & _).
  rewrite Hm. simpl. unfold in_quarantine, in_clean.
  destruct (trigger_after_stores
              (length (List.filter is_merged
                 (foldl (merge_item env actor) (sys, [])
                    (List.map (process_update env
                       (load_base (quarantine sys) (update_keys updates)))
                       updates)).2))
              (foldl (merge_item env actor) (sys, [])
                 (List.map (process_update env
                    (load_base (quarantine sys) (update_keys updates)))
                    updates)).1) as [-> ->].
  apply (merge_items_invariant env actor
           (fun s => in_quarantine s k \/ in_clean s k)).
  - intros s d i. apply merge_item_present.
  - exact Hp.
Qed.

(** A key that is in neither store before the call is in neither store
    after it: its update, if any, finds no base record. *)
Lemma merge_absent_stays_absent env sys updates actor k :
  quarantine sys !! k = None -> clean sys !! k = None ->
  quarantine (merge env sys updates actor).2 !! k = None /\
  clean (merge env sys updates actor).2 !! k = None.
Proof.
  intros Hq Hc.
  destruct (has_duplicate_keys updates) eqn:Hdup.
  { rewrite merge_rejected by exact Hdup. split; assumption. }
  destruct (merge_accepted env sys updates actor Hdup) as (mr & Hm & _).
  rewrite Hm. simpl.
  set (base := load_base (quarantine sys) (update_keys updates)).
  assert (Hbase : base !! k = None).
  { unfold base. rewrite load_base_lookup, Hq. case_decide; reflexivity. }
  assert (Hgen : forall l acc,
            quarantine acc.1 !! k = None /\ clean acc.1 !! k = None ->
            let final := foldl (merge_item env actor) acc
                           (List.map (process_update env base) l) in
            quarantine final.1 !! k = None /\ clean final.1 !! k = None).
  { induction l as [|u l IH]; intros [s d] [Hsq Hsc]; simpl; [split; assumption|].
    apply IH. split; [apply merge_item_quarantine_none; exact Hsq|].
    unfold merge_item, process_update.
    destruct (decide (upd_key u = k)) as [Hk|Hk].
    - rewrite Hk, Hbase. exact Hsc.
    - destruct (base !! upd_key u) as [b|]; simpl; [|exact Hsc].
      destruct (is_valid (validator env (apply_update b u))); [|exact Hsc].
      destruct (write_fails env (upd_key u)); [exact Hsc|].
      simpl. rewrite lookup_insert_ne by exact Hk. exact Hsc. }
  specialize (Hgen updates (sys, []) (conj Hq Hc)). simpl in Hgen.
  destruct Hgen as [Hfq Hfc].
  destruct (trigger_after_stores
              (length (List.filter is_merged
                 (foldl (merge_item env actor) (sys, [])
                    (List.map (process_update env base) updates)).2))
              (foldl (merge_item env actor) (sys, [])
                 (List.map (process_update env base) updates)).1) as [-> ->].
  split; assumption.
Qed.

(** C1: starting from stores that respect the ownership invariant (no key
    in both), after a call to merge every composite key that was in one
    of the stores before the call is in exactly one of the quarantine
    store and the clean store: never in both, never in neither. *)
Theorem merge_exactly_one_store (env : Environment) (sys : System)
    (updates : list RecordUpdate) (actor : string) (k : string) :
  stores_disjoint sys ->
  in_quarantine sys k \/ in_clean sys k ->
  in_exactly_one_store (merge env sys updates actor).2 k.
Proof.
  intros Hd Hp.
  pose proof (merge_disjoint env sys updates actor Hd k) as Hdis.
  pose proof (merge_present env sys updates actor k Hp) as Hpre.
  unfold in_exactly_one_store, in_quarantine, in_clean in *.
  destruct Hpre as [Hq|Hc]; [left|right]; (split; [|]); try assumption.
  - destruct Hdis as [Hn|Hn]; [rewrite Hn in Hq; destruct Hq; discriminate|].
    rewrite Hn. intros [? ?]; discriminate.
  - destruct Hdis as [Hn|Hn]; [|rewrite Hn in Hc; destruct Hc; discriminate].
    rewrite Hn. intros [? ?]; discriminate.
Qed.

(** C6: a batch in which two updates share a composite key is rejected
    with the batch-level DUPLICATE_KEY error, whatever the validator
    would say, and the call leaves the system (both stores, the audit
    log, the trigger) exactly as it was; neither a BatchResult nor a
    MergeResult is produced. *)
Theorem duplicate_keys_rejected (env : Environment) (sys : System)
    (updates : list RecordUpdate) (actor : string)
    (i j : nat) (u1 u2 : RecordUpdate) :
  i <> j ->
  updates !! i = Some u1 ->
  updates !! j = Some u2 ->
  upd_key u1 = upd_key u2 ->
  (forall base, process env base updates = inl DUPLICATE_KEY) /\
  merge env sys updates actor = (inl DUPLICATE_KEY, sys).
Proof.
  intros Hij H1 H2 Hkey.
  assert (Hdup : has_duplicate_keys updates = true).
  { unfold has_duplicate_keys. apply negb_true_iff, bool_decide_eq_false.
    intros Hnd. apply Hij.
    apply (NoDup_lookup (update_keys updates) i j (upd_key u1) Hnd);
      unfold update_keys.
    - change (List.map upd_key updates) with (upd_key <$> updates).
      rewrite list_lookup_fmap, H1. reflexivity.
    - change (List.map upd_key updates) with (upd_key <$> updates).
      rewrite list_lookup_fmap, H2, Hkey. reflexivity. }
  split.
  - intros base. unfold process. rewrite Hdup. reflexivity.
  - apply merge_rejected. exact Hdup.
Qed.

(** C7: once a composite key has been merged it is absent from the
    quarantine store, and a later merge whose batch (free of duplicate
    keys) contains an update for that key reports NotFound for it, never
    Merged; the call still returns a MergeResult in which every update of
    the batch has its own outcome, and the records it reports as merged
    have left quarantine. *)
Theorem merge_again_not_found (env0 : Environment) (sys0 : System)
    (updates0 : list RecordUpdate) (actor0 : string) (mr0 : MergeResult)
    (k : string) (env : Environment) (updates : list RecordUpdate)
    (actor : string) :
  (merge env0 sys0 updates0 actor0).1 = inr mr0 ->
  (k, Merged) ∈ outcomes mr0 ->
  has_duplicate_keys updates = false ->
  k ∈ update_keys updates ->
  let sys := (merge env0 sys0 updates0 actor0).2 in
  ~ in_quarantine sys k /\
  exists mr,
    (merge env sys updates actor).1 = inr mr /\
    (k, NotFound) ∈ outcomes mr /\
    ((k, Merged) ∉ outcomes mr) /\
    outcomes mr =
      List.map (fun u => (upd_key u, record_outcome env (quarantine sys) u))
        updates /\
    (forall k', (k', Merged) ∈ outcomes mr ->
                ~ in_quarantine (merge env sys updates actor).2 k').
Proof.
  intros Hmr0 Hmerged Hdup Hin sys.
  assert (Hgone : quarantine sys !! k = None).
  { apply (merge_merged_gone env0 sys0 updates0 actor0 mr0); assumption. }
  split.
  { unfold in_quarantine. rewrite Hgone. intros [? ?]; discriminate. }
  destruct (merge_accepted env sys updates actor Hdup) as (mr & Hm & _).
  assert (Hmr : (merge env sys updates actor).1 = inr mr).
  { rewrite Hm. reflexivity. }
  exists mr. split; [exact Hmr|].
  destruct (merge_outcomes env sys updates actor mr Hmr) as [_ Hout].
  assert (Hnf : forall u, upd_key u = k ->
                  record_outcome env (quarantine sys) u = NotFound).
  { intros u <-. unfold record_outcome. rewrite Hgone. reflexivity. }
  repeat split.
  - rewrite Hout. unfold update_keys in Hin.
    apply list_elem_of_In, List.in_map_iff in Hin as (u & Hu & Hinu).
    apply list_elem_of_In, List.in_map_iff. exists u.
    split; [|exact Hinu]. rewrite (Hnf u Hu), Hu. reflexivity.
  - rewrite Hout. intros Hbad.
    apply list_elem_of_In, List.in_map_iff in Hbad as (u & Hu & _).
    inversion Hu as [[Hk Ho]]. rewrite (Hnf u Hk) in Ho. discriminate Ho.
  - exact Hout.
  - intros k' Hk'. unfold in_quarantine.
    rewrite (merge_merged_gone env sys updates actor mr k' Hmr Hk').
    intros [? ?]; discriminate.
Qed.

Lemma sample_system_disjoint : stores_disjoint sample_system.
Proof.
  intros k. destruct (decide (k = "42|2024-01-01|QUARANTINED")) as [->|Hne].
  - right. vm_compute. reflexivity.
  - left. apply lookup_singleton_ne. congruence.
Qed.

Lemma merge_exactly_one_store_witness :
  in_exactly_one_store
    (merge sample_env sample_system
       [date_update "42|2024-01-01|QUARANTINED" "2024-06-01"] "steward").2
    "42|2024-01-01|QUARANTINED".
Proof.
  apply (merge_exactly_one_store sample_env sample_system).
  - exact sample_system_disjoint.
  - left. unfold in_quarantine. vm_compute. eauto.
Defined.

Lemma duplicate_keys_rejected_witness :
  merge sample_env sample_system
    [date_update "42|2024-01-01|QUARANTINED" "2024-06-01";
     balance_update "42|2024-01-01|QUARANTINED" 5] "steward"
  = (inl DUPLICATE_KEY, sample_system).
Proof.
  apply (duplicate_keys_rejected sample_env sample_system _ "steward" 0 1
           (date_update "42|2024-01-01|QUARANTINED" "2024-06-01")
           (balance_update "42|2024-01-01|QUARANTINED" 5)).
  - lia.
  - reflexivity.
  - reflexivity.
  - reflexivity.
Defined.

Lemma merge_again_not_found_witness :
  exists mr0 mr,
    (merge sample_env sample_system
       [date_update "42|2024-01-01|QUARANTINED" "2024-06-01"] "steward").1
      = inr mr0 /\
    outcomes mr0 = [("42|2024-01-01|QUARANTINED", Merged)] /\
    (merge sample_env
       (merge sample_env sample_system
          [date_update "42|2024-01-01|QUARANTINED" "2024-06-01"] "steward").2
       [date_update "42|2024-01-01|QUARANTINED" "2024-06-01"] "steward").1
      = inr mr /\
    ("42|2024-01-01|QUARANTINED", NotFound) ∈ outcomes mr.
Proof.
  eexists.
  assert (H0 : (merge sample_env sample_system
                  [date_update "42|2024-01-01|QUARANTINED" "2024-06-01"]
                  "steward").1 = inr _) by (vm_compute; reflexivity).
  destruct (merge_again_not_found sample_env sample_system
              [date_update "42|2024-01-01|QUARANTINED" "2024-06-01"] "steward"
              _ "42|2024-01-01|QUARANTINED" sample_env
              [date_update "42|2024-01-01|QUARANTINED" "2024-06-01"] "steward"
              H0)
    as (_ & mr & Hmr & Hnf & _).
  - simpl. apply list_elem_of_here.
  - vm_compute. reflexivity.
  - simpl. apply list_elem_of_here.
  - exists mr. split; [exact H0|]. split; [reflexivity|].
    split; [exact Hmr | exact Hnf].
Defined.

(** ** Violation detection: edge behaviour *)

Lemma getitem_Ok (record : dict) (k : string) (v : value) :
  getitem record k = Ok v <-> record !! k = Some v.
Proof.
  unfold getitem. destruct (record !! k); split; intros H;
    inversion H; reflexivity.
Qed.

Lemma payment_date_violated_Ok (record : dict) (c : bool) :
  payment_date_violated record = Ok c <->
  exists d, record !! "next_payment_date" = Some (Str d) /\
            c = String.leb d CUTOFF.
Proof.
  unfold payment_date_violated, getitem.
  destruct (record !! "next_payment_date") as [[| d | z]|]; simpl; split;
    try (intros H; discriminate H);
    try (intros (d' & H & _); discriminate H).
  - intros H. inversion H. eauto.
  - intros (d' & H & ->). inversion H. reflexivity.
Qed.

Lemma balance_violated_Ok (record : dict) (c : bool) :
  balance_violated record = Ok c <->
  exists b, record !! "balance" = Some (Int b) /\
    ((b <= 0 /\ c = true) \/
     (0 < b /\ exists a, record !! "arrears_balance" = Some (Int a) /\
                         c = (a <=? 0))).
Proof.
  unfold balance_violated, getitem.
  destruct (record !! "balance") as [[| s | b]|]; simpl; split;
    try (intros H; discriminate H);
    try (intros (b' & H & _); discriminate H).
  - intros H. exists b. split; [reflexivity|].
    destruct (Z.leb_spec b 0) as [Hb|Hb]; simpl in H.
    + left. split; [exact Hb|]. inversion H. reflexivity.
    + right. split; [exact Hb|].
      destruct (record !! "arrears_balance") as [[| s | a]|]; simpl in H;
        try discriminate H.
      inversion H. eauto.
  - intros (b' & H & Hc). inversion H; subst b'. clear H.
    destruct Hc as [[Hb ->]|(Hb & a & Ha & ->)].
    + destruct (Z.leb_spec b 0); [reflexivity|lia].
    + destruct (Z.leb_spec b 0); [lia|]. simpl. rewrite Ha. reflexivity.
Qed.

Lemma cost_center_violated_Ok (record : dict) (c : bool) :
  cost_center_violated record = Ok c <->
  exists v, record !! "cost_center_code" = Some v /\ c = negb (truthy v).
Proof.
  unfold cost_center_violated, getitem.
  destruct (record !! "cost_center_code") as [v|]; simpl; split.
  - intros H. inversion H. eauto.
  - intros (v' & H & ->). inversion H. reflexivity.
  - intros H. discriminate H.
  - intros (v' & H & _). discriminate H.
Qed.

Lemma detect_violations_Ok (record : dict) (vs : list ViolationType) :
  detect_violations record = Ok vs <->
  exists c1 c2 c3,
    payment_date_violated record = Ok c1 /\
    balance_violated record = Ok c2 /\
    cost_center_violated record = Ok c3 /\
    vs = append_if c3 COST_CENTER
           (append_if c2 BALANCE (append_if c1 PAYMENT_DATE [])).
Proof.
  unfold detect_violations.
  destruct (payment_date_violated record) as [c1|e1]; simpl.
  2:{ split; [intros H; discriminate H
             | intros (? & ? & ? & H & _); discriminate H]. }
  destruct (balance_violated record) as [c2|e2]; simpl.
  2:{ split; [intros H; discriminate H
             | intros (? & ? & ? & _ & H & _); discriminate H]. }
  destruct (cost_center_violated record) as [c3|e3]; simpl.
  2:{ split; [intros H; discriminate H
             | intros (? & ? & ? & _ & _ & H & _); discriminate H]. }
  split.
  - intros H. inversion H. exists c1, c2, c3. repeat split; reflexivity.
  - intros (? & ? & ? & H1 & H2 & H3 & ->).
    inversion H1; inversion H2; inversion H3; subst. reflexivity.
Qed.

(** X1: which exception [detect_violations] raises, and when it
    returns.  The checks run in the order date, balance, arrears balance,
    cost centre, and the first one that cannot be evaluated decides: a
    missing key raises [KeyError] with that key, a date that is [None] or
    an integer and a balance or arrears balance that is [None] or a
    string raise [TypeError]; the arrears balance is looked at only when
    the balance is positive.  When the date is a string, the balance an
    integer, the arrears balance an integer or the balance not positive,
    and the cost-centre key present, a list is returned. *)
Theorem detect_violations_first_exception (record : dict) :
  (record !! "next_payment_date" = None ->
   detect_violations record = Raise (KeyError "next_payment_date")) /\
  ((record !! "next_payment_date" = Some NoneV \/
    exists z, record !! "next_payment_date" = Some (Int z)) ->
   detect_violations record = Raise TypeError) /\
  (forall d, record !! "next_payment_date" = Some (Str d) ->
     (record !! "balance" = None ->
      detect_violations record = Raise (KeyError "balance")) /\
     ((record !! "balance" = Some NoneV \/
       exists s, record !! "balance" = Some (Str s)) ->
      detect_violations record = Raise TypeError) /\
     (forall b, record !! "balance" = Some (Int b) ->
        (0 < b -> record !! "arrears_balance" = None ->
         detect_violations record = Raise (KeyError "arrears_balance")) /\
        (0 < b ->
         (record !! "arrears_balance" = Some NoneV \/
          exists s, record !! "arrears_balance" = Some (Str s)) ->
         detect_violations record = Raise TypeError) /\
        ((b <= 0 \/ exists a, record !! "arrears_balance" = Some (Int a)) ->
         (record !! "cost_center_code" = None ->
          detect_violations record = Raise (KeyError "cost_center_code")) /\
         (is_Some (record !! "cost_center_code") ->
          exists vs, detect_violations record = Ok vs)))).
Proof.
  unfold detect_violations, payment_date_violated, balance_violated,
    cost_center_violated, getitem.
  split; [intros ->; reflexivity|].
  split; [intros [->|[z ->]]; reflexivity|].
  intros d ->. simpl.
  split; [intros ->; reflexivity|].
  split; [intros [->|[s ->]]; reflexivity|].
  intros b ->. simpl.
  destruct (Z.leb_spec b 0) as [Hle|Hgt]; simpl.
  - split; [intros Hb; lia|]. split; [intros Hb; lia|].
    intros _. split; [intros ->; reflexivity|].
    intros [v ->]. simpl. eexists. reflexivity.
  - split; [intros _ ->; reflexivity|].
    split; [intros _ [->|[s ->]]; reflexivity|].
    intros [Hb|[a ->]]; [lia|]. simpl.
    split; [intros ->; reflexivity|].
    intros [v ->]. simpl. eexists. reflexivity.
Qed.

Lemma detect_violations_first_exception_witness :
  (exists vs, detect_violations sample_record = Ok vs) /\
  detect_violations (delete "arrears_balance" sample_record)
    = Raise (KeyError "arrears_balance").
Proof.
  split.
  - destruct (detect_violations_first_exception sample_record)
      as (_ & _ & H).
    destruct (H "2019-05-01" eq_refl) as (_ & _ & Hb).
    destruct (Hb 100 eq_refl) as (_ & _ & Hc).
    apply Hc; [right; exists 20; reflexivity | eexists; reflexivity].
  - destruct (detect_violations_first_exception
                (delete "arrears_balance" sample_record)) as (_ & _ & H).
    destruct (H "2019-05-01" eq_refl) as (_ & _ & Hb).
    destruct (Hb 100 eq_refl) as (Hmissing & _).
    apply Hmissing; [lia | reflexivity].
Defined.

Lemma violation_list_In (c1 c2 c3 : bool) (k : ViolationType) :
  In k (append_if c3 COST_CENTER
          (append_if c2 BALANCE (append_if c1 PAYMENT_DATE []))) <->
  match k with
  | PAYMENT_DATE => c1 = true
  | BALANCE => c2 = true
  | COST_CENTER => c3 = true
  end.
Proof.
  destruct c1, c2, c3, k; simpl; intuition congruence.
Qed.

Lemma violation_list_ordered (c1 c2 c3 : bool) :
  NoDup (append_if c3 COST_CENTER
           (append_if c2 BALANCE (append_if c1 PAYMENT_DATE []))) /\
  sublist (append_if c3 COST_CENTER
             (append_if c2 BALANCE (append_if c1 PAYMENT_DATE [])))
    [PAYMENT_DATE; BALANCE; COST_CENTER].
Proof.
  destruct c1, c2, c3; simpl;
    (split;
     [ compute_done
     | repeat first [apply sublist_nil | apply sublist_skip
                    | apply sublist_cons] ]).
Qed.

(** X2: on a record whose four editable fields hold values of the
    expected types, [detect_violations] returns a list without
    repetition, in the order PAYMENT_DATE, BALANCE, COST_CENTER, that
    contains PAYMENT_DATE exactly when the date is not after the cutoff,
    BALANCE exactly when one of the two balances is not positive, and
    COST_CENTER exactly when the cost centre is [None], empty or [0]. *)
Theorem detect_violations_typed_record (record : dict) (d : string)
    (b a : Z) (cc : value) :
  record !! "next_payment_date" = Some (Str d) ->
  record !! "balance" = Some (Int b) ->
  record !! "arrears_balance" = Some (Int a) ->
  record !! "cost_center_code" = Some cc ->
  exists vs,
    detect_violations record = Ok vs /\
    (In PAYMENT_DATE vs <-> String.ltb CUTOFF d = false) /\
    (In BALANCE vs <-> b <= 0 \/ a <= 0) /\
    (In COST_CENTER vs <-> truthy cc = false) /\
    NoDup vs /\
    sublist vs [PAYMENT_DATE; BALANCE; COST_CENTER].
Proof.
  intros Hd Hb Ha Hc.
  assert (H1 : payment_date_violated record = Ok (String.leb d CUTOFF)).
  { apply payment_date_violated_Ok. eauto. }
  assert (H2 : balance_violated record = Ok ((b <=? 0) || (a <=? 0))).
  { apply balance_violated_Ok. exists b. split; [exact Hb|].
    destruct (Z.leb_spec b 0) as [Hle|Hgt]; [left; split; [exact Hle|reflexivity]|].
    right. split; [exact Hgt|]. exists a. split; [exact Ha|reflexivity]. }
  assert (H3 : cost_center_violated record = Ok (negb (truthy cc))).
  { apply cost_center_violated_Ok. eauto. }
  eexists. split.
  { apply detect_violations_Ok. do 3 eexists. repeat split; eassumption. }
  destruct (violation_list_ordered (String.leb d CUTOFF)
              ((b <=? 0) || (a <=? 0)) (negb (truthy cc))) as [Hnd Hsub].
  repeat split; try assumption.
  - intros H. apply violation_list_In in H.
    destruct (String.ltb CUTOFF d) eqn:E; [|reflexivity].
    apply not_leb_ltb in E. congruence.
  - intros H. apply violation_list_In.
    destruct (String.leb d CUTOFF) eqn:E; [reflexivity|].
    apply not_leb_ltb in E. congruence.
  - intros H. apply violation_list_In in H.
    apply orb_true_iff in H. rewrite !Z.leb_le in H. exact H.
  - intros H. apply violation_list_In.
    apply orb_true_iff. rewrite !Z.leb_le. exact H.
  - intros H. apply violation_list_In in H. apply negb_true_iff. exact H.
  - intros H. apply violation_list_In. apply negb_true_iff. exact H.
Qed.

Lemma detect_violations_typed_record_witness :
  exists vs,
    detect_violations typed_record = Ok vs /\
    (In PAYMENT_DATE vs <-> String.ltb CUTOFF "2020-12-31" = false) /\
    (In BALANCE vs <-> 15 <= 0 \/ 0 <= 0) /\
    (In COST_CENTER vs <-> truthy (Str "CC-9") = false) /\
    NoDup vs /\
    sublist vs [PAYMENT_DATE; BALANCE; COST_CENTER].
Proof.
  apply (detect_violations_typed_record typed_record); reflexivity.
Defined.

(** X3: the balance check stops at the first balance.  When the balance
    is a non-positive integer the arrears balance is never read, so the
    check reports a violation whether the arrears balance is missing,
    null or of any other value; when the balance key is missing the
    check raises [KeyError] even if the arrears balance alone would be a
    violation. *)
Theorem balance_check_short_circuit (record : dict) (b : Z) :
  b <= 0 ->
  (forall v, balance_violated
               (<["arrears_balance" := v]> (<["balance" := Int b]> record))
             = Ok true) /\
  balance_violated (delete "arrears_balance" (<["balance" := Int b]> record))
    = Ok true /\
  (forall a, balance_violated
               (<["arrears_balance" := Int a]> (delete "balance" record))
             = Raise (KeyError "balance")).
Proof.
  intros Hb. repeat split.
  - intros v. apply balance_violated_Ok. exists b. split.
    + rewrite lookup_insert_ne by discriminate. apply lookup_insert_eq.
    + left. split; [exact Hb | reflexivity].
  - apply balance_violated_Ok. exists b. split.
    + rewrite lookup_delete_ne by discriminate. apply lookup_insert_eq.
    + left. split; [exact Hb | reflexivity].
  - intros a.
    assert (E : getitem (<["arrears_balance" := Int a]> (delete "balance" record))
                  "balance" = Raise (KeyError "balance")).
    { unfold getitem. rewrite lookup_insert_ne by done.
      rewrite lookup_delete_eq. reflexivity. }
    unfold balance_violated. rewrite E. reflexivity.
Qed.

Lemma balance_check_short_circuit_witness :
  balance_violated (delete "arrears_balance" (<["balance" := Int (-5)]> sample_record))
    = Ok true /\
  balance_violated (<["arrears_balance" := Int (-1)]> (delete "balance" sample_record))
    = Raise (KeyError "balance").
Proof.
  destruct (balance_check_short_circuit sample_record (-5)) as (_ & H2 & H3);
    [lia|].
  split; [exact H2 | exact (H3 (-1))].
Defined.

(** X4: the cost-centre check reports a violation exactly for the values
    Python treats as false: [None], the empty string and the integer
    [0]; any other value passes, and a record without the key makes the
    check raise [KeyError]. *)
Theorem cost_center_check_falsy (record : dict) :
  (cost_center_violated record = Ok true <->
     record !! "cost_center_code" = Some NoneV \/
     record !! "cost_center_code" = Some (Str EmptyString) \/
     record !! "cost_center_code" = Some (Int 0)) /\
  (cost_center_violated record = Raise (KeyError "cost_center_code") <->
     record !! "cost_center_code" = None).
Proof.
  split.
  - rewrite cost_center_violated_Ok. split.
    + intros (v & Hv & Hc). rewrite Hv. symmetry in Hc.
      apply negb_true_iff in Hc. destruct v as [| s | z]; simpl in Hc.
      * left. reflexivity.
      * right. left. apply negb_false_iff, String.eqb_eq in Hc. subst.
        reflexivity.
      * right. right. apply negb_false_iff, Z.eqb_eq in Hc. subst.
        reflexivity.
    + intros [H|[H|H]]; eexists; (split; [exact H|reflexivity]).
  - unfold cost_center_violated, getitem.
    destruct (record !! "cost_center_code"); simpl; split; intros H;
      first [discriminate H | reflexivity].
Qed.

Lemma cost_center_check_falsy_witness :
  cost_center_violated null_cost_center_record = Ok true.
Proof.
  apply (proj2 (proj1 (cost_center_check_falsy null_cost_center_record))).
  left. reflexivity.
Defined.

(** X6: the result of [detect_violations], exception included, depends
    only on the four editable fields: two records that agree on them
    give the same result, whatever their other fields hold. *)
Theorem detect_violations_reads_editable_fields_only (r1 r2 : dict) :
  same_editable_fields r1 r2 ->
  detect_violations r1 = detect_violations r2.
Proof.
  intros (Hd & Hb & Ha & Hc).
  unfold detect_violations, payment_date_violated, balance_violated,
    cost_center_violated, getitem.
  rewrite Hd, Hb, Ha, Hc. reflexivity.
Qed.

Lemma detect_violations_reads_editable_fields_only_witness :
  detect_violations (<["country_code" := Str "FR"]> sample_record)
  = detect_violations sample_record.
Proof.
  apply detect_violations_reads_editable_fields_only.
  repeat split; apply lookup_insert_ne; discriminate.
Defined.

(** ** The payment-date check on ISO dates *)

Lemma digit_compare (a b : N) :
  (a < 10)%N -> (b < 10)%N ->
  Ascii.compare (digit a) (digit b) = (a ?= b)%N.
Proof.
  intros Ha Hb. unfold Ascii.compare, digit.
  rewrite !N_ascii_embedding by lia.
  destruct (N.compare_spec a b) as [H|H|H];
    [apply N.compare_eq_iff | apply N.compare_lt_iff | apply N.compare_gt_iff];
    lia.
Qed.

(** Comparing two numbers is comparing their quotients by [k] and then
    their remainders. *)
Lemma compare_div_mod (k a b : N) :
  (0 < k)%N ->
  (a ?= b)%N =
  match (a / k ?= b / k)%N with
  | Eq => (a mod k ?= b mod k)%N
  | c => c
  end.
Proof.
  intros Hk.
  pose proof (N.div_mod a k ltac:(lia)) as Ea.
  pose proof (N.div_mod b k ltac:(lia)) as Eb.
  pose proof (N.mod_lt a k ltac:(lia)) as La.
  pose proof (N.mod_lt b k ltac:(lia)) as Lb.
  set (qa := (a / k)%N) in *. set (qb := (b / k)%N) in *.
  set (ra := (a mod k)%N) in *. set (rb := (b mod k)%N) in *.
  clearbody qa qb ra rb.
  destruct (N.compare_spec qa qb) as [Hq|Hq|Hq].
  - subst qb.
    destruct (N.compare_spec ra rb) as [Hr|Hr|Hr].
    + apply N.compare_eq_iff. lia.
    + apply N.compare_lt_iff. lia.
    + apply N.compare_gt_iff. lia.
  - apply N.compare_lt_iff.
    assert (Hm : (k * (qa + 1) <= k * qb)%N)
      by (apply N.mul_le_mono_l; lia).
    lia.
  - apply N.compare_gt_iff.
    assert (Hm : (k * (qb + 1) <= k * qa)%N)
      by (apply N.mul_le_mono_l; lia).
    lia.
Qed.

Lemma two_digits_compare (a b : N) (s t : string) :
  (a < 100)%N -> (b < 100)%N ->
  String.compare (two_digits a s) (two_digits b t) =
  match (a ?= b)%N with
  | Eq => String.compare s t
  | c => c
  end.
Proof.
  intros Ha Hb. unfold two_digits. simpl.
  assert (a / 10 < 10)%N by (apply N.Div0.div_lt_upper_bound; lia).
  assert (b / 10 < 10)%N by (apply N.Div0.div_lt_upper_bound; lia).
  assert (a mod 10 < 10)%N by (apply N.mod_lt; lia).
  assert (b mod 10 < 10)%N by (apply N.mod_lt; lia).
  rewrite !digit_compare by assumption.
  rewrite (compare_div_mod 10 a b) by lia.
  destruct (a / 10 ?= b / 10)%N; [|reflexivity|reflexivity].
  destruct (a mod 10 ?= b mod 10)%N; reflexivity.
Qed.

Lemma four_digits_compare (a b : N) (s t : string) :
  (a < 10000)%N -> (b < 10000)%N ->
  String.compare (four_digits a s) (four_digits b t) =
  match (a ?= b)%N with
  | Eq => String.compare s t
  | c => c
  end.
Proof.
  intros Ha Hb. unfold four_digits.
  assert (a / 100 < 100)%N by (apply N.Div0.div_lt_upper_bound; lia).
  assert (b / 100 < 100)%N by (apply N.Div0.div_lt_upper_bound; lia).
  assert (a mod 100 < 100)%N by (apply N.mod_lt; lia).
  assert (b mod 100 < 100)%N by (apply N.mod_lt; lia).
  rewrite two_digits_compare by assumption.
  rewrite (compare_div_mod 100 a b) by lia.
  destruct (a / 100 ?= b / 100)%N; [|reflexivity|reflexivity].
  apply two_digits_compare; assumption.
Qed.

(** On dates in ISO form the string order is the calendar order. *)
Lemma iso_date_compare (y m d y' m' d' : N) :
  (y < 10000)%N -> (m < 100)%N -> (d < 100)%N ->
  (y' < 10000)%N -> (m' < 100)%N -> (d' < 100)%N ->
  String.compare (iso_date y m d) (iso_date y' m' d') =
  date_compare y m d y' m' d'.
Proof.
  intros Hy Hm Hd Hy' Hm' Hd'. unfold iso_date, date_compare.
  rewrite four_digits_compare by assumption.
  destruct (y ?= y')%N; [|reflexivity|reflexivity].
  change (String.compare (String "-" ?s) (String "-" ?t))
    with (String.compare s t).
  cbn [String.compare]. change (Ascii.compare "-" "-") with Eq. cbv iota.
  rewrite two_digits_compare by assumption.
  destruct (m ?= m')%N; [|reflexivity|reflexivity].
  cbn [String.compare]. change (Ascii.compare "-" "-") with Eq. cbv iota.
  rewrite two_digits_compare by assumption.
  destruct (d ?= d')%N; reflexivity.
Qed.

(** X5: for a payment date written in ISO form ([YYYY-MM-DD] with
    leading zeros), the payment-date check reports a violation exactly
    when the date is on or before 31 December 2020 in the calendar. *)
Theorem payment_date_check_iso (record : dict) (y m d : N) :
  (y < 10000)%N -> (m < 100)%N -> (d < 100)%N ->
  payment_date_violated
    (<["next_payment_date" := Str (iso_date y m d)]> record)
  = Ok (on_or_before y m d 2020 12 31).
Proof.
  intros Hy Hm Hd. apply payment_date_violated_Ok.
  exists (iso_date y m d). split; [apply lookup_insert_eq|].
  unfold on_or_before, String.leb.
  change CUTOFF with (iso_date 2020 12 31).
  rewrite iso_date_compare by (assumption || lia). reflexivity.
Qed.

Lemma payment_date_check_iso_witness :
  iso_date 2021 1 1 = "2021-01-01" /\
  payment_date_violated
    (<["next_payment_date" := Str (iso_date 2021 1 1)]> sample_record)
  = Ok false.
Proof.
  split; [reflexivity|].
  apply (payment_date_check_iso sample_record 2021 1 1); reflexivity.
Defined.

(** ** The pipeline trigger with the SDK's client *)

(** X7: with a client whose [jobs.list] returns an iterator, as the
    Databricks SDK's does, a call to [trigger_pipeline] never reaches
    [run_now]: whatever jobs the workspace has and whatever the name, it
    raises [AttributeError] on [job.job_id], an empty iterator being
    true like any other.  On an instance whose [client] attribute was
    never set it raises [AttributeError] on [self.client]. *)
Theorem trigger_pipeline_raises_on_iterator (jobs : list Job)
    (recorded : list Z) (name : string) :
  trigger_pipeline name {| client := Some (databricks_client jobs recorded) |}
    = Raise (AttributeError "job_id") /\
  trigger_pipeline name {| client := None |}
    = Raise (AttributeError "client").
Proof. split; reflexivity. Qed.

(** ** The review page: toggles *)

Lemma gset_remove_add (s : gset string) (k : string) :
  k ∈ s -> s ∖ {[k]} ∪ {[k]} = s.
Proof.
  intros Hin. apply set_eq. intros x.
  rewrite elem_of_union, elem_of_difference, elem_of_singleton.
  destruct (decide (x = k)) as [->|]; tauto.
Qed.

Lemma gset_add_remove (s : gset string) (k : string) :
  k ∉ s -> (s ∪ {[k]}) ∖ {[k]} = s.
Proof.
  intros Hnin. apply set_eq. intros x.
  rewrite elem_of_difference, elem_of_union, elem_of_singleton.
  destruct (decide (x = k)) as [->|]; tauto.
Qed.

Lemma gset_removed (s : gset string) (k : string) : k ∉ s ∖ {[k]}.
Proof.
  intros H. apply elem_of_difference in H as [_ H].
  apply H, elem_of_singleton. reflexivity.
Qed.

Lemma gset_added (s : gset string) (k : string) : k ∈ s ∪ {[k]}.
Proof. apply elem_of_union_r, elem_of_singleton. reflexivity. Qed.

(** Membership after the key has been taken out of, or put into, a set. *)
Lemma gset_toggle_elem (s : gset string) (key k : string) :
  k ∈ (if decide (key ∈ s) then s ∖ {[key]} else s ∪ {[key]}) <->
  if decide (k = key) then k ∉ s else k ∈ s.
Proof.
  destruct (decide (key ∈ s)) as [Hin|Hnin];
    [rewrite elem_of_difference | rewrite elem_of_union];
    rewrite elem_of_singleton;
    destruct (decide (k = key)) as [->|]; tauto.
Qed.

(** X8: [toggleRecordExpansion] and [toggleRecordSelection] flip the
    membership of the given key and of no other key, and toggling the
    same key twice gives back the state one started from. *)
Theorem toggle_expansion_selection_involutive {V : Type}
    (key : string) (st : PageState V) :
  toggleRecordExpansion key (toggleRecordExpansion key st) = st /\
  toggleRecordSelection key (toggleRecordSelection key st) = st /\
  (forall k, k ∈ expandedRecords (toggleRecordExpansion key st) <->
             if decide (k = key) then k ∉ expandedRecords st
             else k ∈ expandedRecords st) /\
  (forall k, k ∈ selectedRecords (toggleRecordSelection key st) <->
             if decide (k = key) then k ∉ selectedRecords st
             else k ∈ selectedRecords st).
Proof.
  destruct st as [bm ex ed es sel]. split; [|split; [|split]].
  - unfold toggleRecordExpansion. simpl.
    destruct (decide (key ∈ ex)) as [Hin|Hnin]; simpl.
    + destruct (decide (key ∈ ex ∖ {[key]})) as [H|_];
        [destruct (gset_removed ex key H)|].
      rewrite gset_remove_add by exact Hin. reflexivity.
    + destruct (decide (key ∈ ex ∪ {[key]})) as [_|H];
        [|destruct (H (gset_added ex key))].
      rewrite gset_add_remove by exact Hnin. reflexivity.
  - unfold toggleRecordSelection. simpl.
    destruct (decide (key ∈ sel)) as [Hin|Hnin]; simpl.
    + destruct (decide (key ∈ sel ∖ {[key]})) as [H|_];
        [destruct (gset_removed sel key H)|].
      rewrite gset_remove_add by exact Hin. reflexivity.
    + destruct (decide (key ∈ sel ∪ {[key]})) as [_|H];
        [|destruct (H (gset_added sel key))].
      rewrite gset_add_remove by exact Hnin. reflexivity.
  - intros k. rewrite <- gset_toggle_elem.
    unfold toggleRecordExpansion. simpl.
    destruct (decide (key ∈ ex)); reflexivity.
  - intros k. rewrite <- gset_toggle_elem.
    unfold toggleRecordSelection. simpl.
    destruct (decide (key ∈ sel)); reflexivity.
Qed.

(** X9: [toggleRecordEditing] is not an involution on the whole state:
    toggling the same key twice brings the set of edited records back,
    but the pending edits of that record are gone, whichever way round
    the two toggles went; nothing else changes. *)
Theorem toggle_editing_twice_drops_edits {V : Type}
    (key : string) (st : PageState V) :
  toggleRecordEditing key (toggleRecordEditing key st) =
  {| batchMode := batchMode st;
     expandedRecords := expandedRecords st;
     editingRecords := editingRecords st;
     editState := delete key (editState st);
     selectedRecords := selectedRecords st |}.
Proof.
  destruct st as [bm ex ed es sel]. unfold toggleRecordEditing. simpl.
  destruct (decide (key ∈ ed)) as [Hin|Hnin]; simpl.
  - destruct (decide (key ∈ ed ∖ {[key]})) as [H|_];
      [destruct (gset_removed ed key H)|].
    rewrite gset_remove_add by exact Hin. reflexivity.
  - destruct (decide (key ∈ ed ∪ {[key]})) as [_|H];
      [|destruct (H (gset_added ed key))].
    rewrite gset_add_remove by exact Hnin. reflexivity.
Qed.

(** ** The review page: the edit buffer *)

Lemma pending_edit_handleFieldEdit {V : Type} (k f : string) (v : V)
    (st : PageState V) (key field : string) :
  pending_edit (handleFieldEdit k f v st) key field =
  if decide (k = key /\ f = field) then Some v else pending_edit st key field.
Proof.
  unfold pending_edit, handleFieldEdit. simpl.
  destruct (decide (k = key)) as [->|Hk].
  - rewrite lookup_insert_eq. simpl.
    destruct (decide (f = field)) as [->|Hf].
    + rewrite lookup_insert_eq.
      destruct (decide (key = key /\ field = field)) as [_|H]; [reflexivity|tauto].
    + rewrite lookup_insert_ne by exact Hf.
      destruct (decide (key = key /\ f = field)) as [[_ H]|_]; [contradiction|].
      destruct (editState st !! key); simpl; [reflexivity|apply lookup_empty].
  - rewrite lookup_insert_ne by exact Hk.
    destruct (decide (k = key /\ f = field)) as [[H _]|_]; [contradiction|].
    reflexivity.
Qed.

(** X10: after any sequence of field edits, the pending value of a field
    of a record is the value of the last edit made to that field of that
    record; a field no edit of the sequence touched keeps the pending
    value it had. *)
Theorem apply_edits_last_edit_wins {V : Type} (edits : list (string * string * V))
    (st : PageState V) (key field : string) :
  pending_edit (apply_edits edits st) key field =
  match last_edit key field edits with
  | Some v => Some v
  | None => pending_edit st key field
  end.
Proof.
  revert st. induction edits as [|[[k f] v] rest IH]; intros st;
    [reflexivity|].
  change (apply_edits (((k, f), v) :: rest) st)
    with (apply_edits rest (handleFieldEdit k f v st)).
  rewrite IH. simpl.
  destruct (last_edit key field rest) as [w|]; [reflexivity|].
  rewrite pending_edit_handleFieldEdit.
  destruct (decide (k = key /\ f = field)); reflexivity.
Qed.

(** ** The review page: what the inputs show *)

(** X11: after an edit of the balance, arrears balance or cost centre
    of a record, the input shows the edited value whatever it is (zero
    and the empty string included).  The date input shows an edited date
    only when it is non-empty: once the edit is the empty string the
    input falls back to the stored date. *)
Theorem input_values_after_edit (key field : string) (v : JsValue)
    (st : PageState JsValue) (record : gmap string JsValue) :
  v <> JsUndefined ->
  let edits := edits_of (handleFieldEdit key field v st) key in
  field_input_value field edits record = v /\
  (field = "next_payment_date" ->
   date_input_value edits record =
     if js_truthy v then v
     else js_or (js_get record "next_payment_date") (JsString EmptyString)).
Proof.
  intros Hv edits.
  assert (E : js_get edits field = v).
  { unfold edits, edits_of, handleFieldEdit, js_get. simpl.
    rewrite lookup_insert_eq. simpl. rewrite lookup_insert_eq. reflexivity. }
  split.
  - unfold field_input_value. rewrite E.
    destruct (decide (v = JsUndefined)); [contradiction|reflexivity].
  - intros ->. unfold date_input_value. rewrite E. unfold js_or at 2.
    destruct (js_truthy v) eqn:Ht.
    + unfold js_or. rewrite Ht. reflexivity.
    + reflexivity.
Qed.

Lemma input_values_after_edit_witness :
  let cleared :=
    edits_of (handleFieldEdit "42|2024-01-01|QUARANTINED" "next_payment_date"
                (JsString EmptyString)
                {| batchMode := false; expandedRecords := ∅;
                   editingRecords := ∅; editState := ∅;
                   selectedRecords := ∅ |})
      "42|2024-01-01|QUARANTINED" in
  date_input_value cleared stored_js_record = JsString "2019-05-01".
Proof.
  intros cleared.
  destruct (input_values_after_edit "42|2024-01-01|QUARANTINED"
              "next_payment_date" (JsString EmptyString)
              {| batchMode := false; expandedRecords := ∅;
                 editingRecords := ∅; editState := ∅;
                 selectedRecords := ∅ |}
              stored_js_record) as [_ H]; [discriminate|].
  exact (H eq_refl).
Defined.

(** ** The review page: badge texts *)

Lemma js_replace_absent (c d : ascii) (s : string) :
  occurrences c s = O -> js_replace c d s = s.
Proof.
  induction s as [|a s IH]; simpl; [reflexivity|].
  destruct (Ascii.eqb a c); simpl; [discriminate|].
  intros H. rewrite IH by exact H. reflexivity.
Qed.

Lemma js_replace_first (c d : ascii) (pre post : string) :
  occurrences c pre = O ->
  js_replace c d (pre ++ String c post)%string = (pre ++ String d post)%string.
Proof.
  induction pre as [|a pre IH]; simpl.
  - intros _. rewrite Ascii.eqb_refl. reflexivity.
  - destruct (Ascii.eqb a c); simpl; [discriminate|].
    intros H. rewrite IH by exact H. reflexivity.
Qed.

(** X12: the badge text replaces the first underscore of the violation
    name by a space and leaves the rest as it is, later underscores
    included: a name [pre_post] with no underscore in [pre] becomes
    [pre post].  A name without an underscore is shown unchanged. *)
Theorem badge_text_first_underscore_only :
  (forall pre post : string,
     occurrences "_" pre = O ->
     badge_text (pre ++ String "_" post)%string = (pre ++ String " " post)%string) /\
  (forall violation : string,
     occurrences "_" violation = O -> badge_text violation = violation).
Proof.
  split.
  - intros pre post H. apply js_replace_first, H.
  - intros violation H. apply js_replace_absent, H.
Qed.

Lemma badge_text_first_underscore_only_witness :
  badge_text "NEXT_PAYMENT_DATE" = "NEXT PAYMENT_DATE" /\
  badge_text "BALANCE" = "BALANCE".
Proof.
  split.
  - apply (proj1 badge_text_first_underscore_only "NEXT" "PAYMENT_DATE").
    reflexivity.
  - apply (proj2 badge_text_first_underscore_only "BALANCE"). reflexivity.
Defined.

(** ** The review page: pagination *)

Lemma Math_ceil_div_spec (a b : Z) :
  0 < b ->
  (Math_ceil_div a b - 1) * b < a <= Math_ceil_div a b * b.
Proof.
  intros Hb. unfold Math_ceil_div.
  pose proof (Z.div_mod (- a) b ltac:(lia)) as E.
  pose proof (Z.mod_pos_bound (- a) b Hb) as Hr.
  set (q := - a / b) in *. set (r := (- a) mod b) in *. clearbody q r.
  nia.
Qed.

Lemma pager_step_page_nonneg (tc : Z) (p : Pager) (ev : PagerEvent) :
  0 <= currentPage p -> 0 <= currentPage (pager_step tc p ev).
Proof.
  intros H. destruct ev; simpl; try lia.
  - destruct (Z.ltb_spec 0 (currentPage p)); simpl; lia.
  - destruct (Z.ltb_spec (currentPage p) (totalPages tc p - 1)); simpl; lia.
Qed.

Lemma pager_step_size_offered (tc : Z) (p : Pager) (ev : PagerEvent) :
  page_size_offered p -> page_size_offered (pager_step tc p ev).
Proof.
  unfold page_size_offered. intros H. destruct ev as [t|o| |]; simpl.
  - exact H.
  - destruct o; simpl; lia.
  - destruct (0 <? currentPage p); exact H.
  - destruct (currentPage p <? totalPages tc p - 1); exact H.
Qed.

(** The page holds data: it is the first page or starts below the total. *)
Lemma pager_step_on_data (tc : Z) (p : Pager) (ev : PagerEvent) :
  0 <= currentPage p -> page_size_offered p ->
  currentPage p = 0 \/ currentPage p * pageSize p < tc ->
  currentPage (pager_step tc p ev) = 0 \/
  currentPage (pager_step tc p ev) * pageSize (pager_step tc p ev) < tc.
Proof.
  intros Hp Hs H. destruct ev as [t|o| |]; simpl.
  - left. reflexivity.
  - left. reflexivity.
  - destruct (Z.ltb_spec 0 (currentPage p)); simpl; [|exact H].
    destruct H as [H|H]; [lia|]. right.
    unfold page_size_offered in Hs. nia.
  - destruct (Z.ltb_spec (currentPage p) (totalPages tc p - 1)) as [Hlt|];
      simpl; [|exact H].
    right. unfold totalPages in Hlt.
    assert (Hb : 0 < pageSize p) by (unfold page_size_offered in Hs; lia).
    pose proof (Math_ceil_div_spec tc (pageSize p) Hb) as [Hlow _].
    nia.
Qed.

Lemma pager_run_invariant (P : Pager -> Prop)
    (events : list (Z * PagerEvent)) :
  (forall tc p ev, In (tc, ev) events -> P p -> P (pager_step tc p ev)) ->
  forall p, P p -> P (pager_run events p).
Proof.
  induction events as [|[tc ev] events IH]; intros Hstep p Hp; [exact Hp|].
  change (pager_run ((tc, ev) :: events) p)
    with (pager_run events (pager_step tc p ev)).
  apply IH.
  - intros tc' p' ev' Hin. apply Hstep. right. exact Hin.
  - apply Hstep; [left; reflexivity | exact Hp].
Qed.

Lemma pager_run_basic (events : list (Z * PagerEvent)) :
  0 <= currentPage (pager_run events initial_pager) /\
  page_size_offered (pager_run events initial_pager).
Proof.
  apply (pager_run_invariant
           (fun p => 0 <= currentPage p /\ page_size_offered p)).
  - intros tc p ev _ [H1 H2].
    split; [apply pager_step_page_nonneg | apply pager_step_size_offered];
      assumption.
  - split; [simpl; lia | right; left; reflexivity].
Qed.

Lemma pager_session_invariant (tc : Z) (events : list PagerEvent) :
  let p := pager_session tc events in
  0 <= currentPage p /\ page_size_offered p /\
  (currentPage p = 0 \/ currentPage p * pageSize p < tc).
Proof.
  unfold pager_session.
  apply (pager_run_invariant
           (fun p => 0 <= currentPage p /\ page_size_offered p /\
                     (currentPage p = 0 \/
                      currentPage p * pageSize p < tc))).
  - intros tc' q ev Hin (H1 & H2 & H3).
    apply List.in_map_iff in Hin as (ev' & Heq & _).
    inversion Heq; subst tc' ev'.
    split; [|split].
    + apply pager_step_page_nonneg. exact H1.
    + apply pager_step_size_offered. exact H2.
    + apply pager_step_on_data; assumption.
  - split; [simpl; lia|]. split; [right; left; reflexivity|].
    left. reflexivity.
Qed.

(** X13: whatever the user clicks, and whatever totals the records query
    reports in between, the page index never becomes negative and the
    page size is one of 25, 50 and 100.  As long as the reported total
    stays the same, the page shown is the first one or starts strictly
    below that total, so Next never leads past the data; with no data at
    all the page stays the first. *)
Theorem pager_stays_on_data :
  (forall events : list (Z * PagerEvent),
     0 <= currentPage (pager_run events initial_pager) /\
     page_size_offered (pager_run events initial_pager)) /\
  (forall (totalCount : Z) (events : list PagerEvent),
     let p := pager_session totalCount events in
     (currentPage p = 0 \/ currentPage p * pageSize p < totalCount) /\
     (totalCount <= 0 -> currentPage p = 0)).
Proof.
  split; [exact pager_run_basic|].
  intros tc events p.
  destruct (pager_session_invariant tc events) as (Hp & Hs & Hd).
  fold p in Hp, Hs, Hd. split; [exact Hd|].
  intros Hz. destruct Hd as [Hd|Hd]; [exact Hd|].
  unfold page_size_offered in Hs. nia.
Qed.

Lemma pager_stays_on_data_witness :
  currentPage (pager_session 0 [NextClick; NextClick]) = 0.
Proof.
  apply (proj2 (proj2 pager_stays_on_data 0 [NextClick; NextClick])). lia.
Defined.

(** X14: every records request the page issues is a GET on
    [/api/quarantine/records] whose limit is 25, 50 or 100 (inside the
    1-1000 the endpoint documents), whose offset is a non-negative
    multiple of the limit, and which carries a violation type exactly
    when a tab other than All is active. *)
Theorem records_query_well_formed (events : list (Z * PagerEvent)) :
  let p := pager_run events initial_pager in
  exists limit page : Z,
    records_query p =
      {| req_method := "GET";
         req_url := "/api/quarantine/records";
         req_query :=
           [("violation_type",
             match activeTab p with
             | ALL => JsUndefined
             | OnlyKind k => JsString (kind_name k)
             end);
            ("limit", JsNumber limit);
            ("offset", JsNumber (page * limit))] |} /\
    (limit = 25 \/ limit = 50 \/ limit = 100) /\
    1 <= limit <= 1000 /\ 0 <= page /\ 0 <= page * limit.
Proof.
  intros p. destruct (pager_run_basic events) as [Hp Hs]. fold p in Hp, Hs.
  exists (pageSize p), (currentPage p). split.
  - unfold records_query, getQuarantineRecordsApiQuarantineRecordsGet. simpl.
    destruct (activeTab p); reflexivity.
  - unfold page_size_offered in Hs. repeat split; first [exact Hs | lia].
Qed.

Lemma next_clicks_advance (tc : Z) (n : nat) (p : Pager) :
  currentPage p + Z.of_nat n <= totalPages tc p - 1 ->
  pager_run (List.map (fun ev => (tc, ev)) (repeat NextClick n)) p =
  {| activeTab := activeTab p;
     currentPage := currentPage p + Z.of_nat n;
     pageSize := pageSize p |}.
Proof.
  revert p. induction n as [|n IH]; intros p Hle.
  - simpl. rewrite Z.add_0_r. destruct p; reflexivity.
  - change (pager_run (List.map (fun ev => (tc, ev))
                         (repeat NextClick (Datatypes.S n))) p)
      with (pager_run (List.map (fun ev => (tc, ev)) (repeat NextClick n))
              (pager_step tc p NextClick)).
    assert (Hstep : pager_step tc p NextClick =
                    {| activeTab := activeTab p;
                       currentPage := currentPage p + 1;
                       pageSize := pageSize p |}).
    { simpl.
      destruct (Z.ltb_spec (currentPage p) (totalPages tc p - 1));
        [reflexivity | lia]. }
    rewrite Hstep, IH.
    + simpl. f_equal. lia.
    + unfold totalPages in *. simpl. lia.
Qed.

(** X15: every record can be reached.  For a total of [totalCount]
    records and any page size of the select, the record at position [i]
    (counted from 0) is on the page reached from a fresh page by
    [i / size] clicks on Next: that page starts at or before [i] and
    ends after it. *)
Theorem every_record_reachable (totalCount i : Z) (o : PageSizeOption) :
  0 <= i < totalCount ->
  let size := option_value o in
  let p := pager_session totalCount
             (PageSizeChange o :: repeat NextClick (Z.to_nat (i / size))) in
  currentPage p = i / size /\ pageSize p = size /\
  currentPage p * pageSize p <= i < (currentPage p + 1) * pageSize p.
Proof.
  intros Hi size p.
  assert (Hsize : 0 < size) by (unfold size; destruct o; simpl; lia).
  assert (Hq : 0 <= i / size) by (apply Z.div_pos; lia).
  pose proof (Z.div_mod i size ltac:(lia)) as Ei.
  pose proof (Z.mod_pos_bound i size Hsize) as Hr.
  pose proof (Math_ceil_div_spec totalCount size Hsize) as [_ Hup].
  assert (Hlast : i / size <= Math_ceil_div totalCount size - 1).
  { set (q := i / size) in *. set (r := i mod size) in *.
    set (t := Math_ceil_div totalCount size) in *. clearbody q r t. nia. }
  assert (E : p = {| activeTab := ALL; currentPage := i / size;
                     pageSize := size |}).
  { unfold p, pager_session.
    change (List.map (fun ev => (totalCount, ev))
              (PageSizeChange o :: repeat NextClick (Z.to_nat (i / size))))
      with ((totalCount, PageSizeChange o) ::
            List.map (fun ev => (totalCount, ev))
              (repeat NextClick (Z.to_nat (i / size)))).
    change (pager_run ((totalCount, PageSizeChange o) :: ?l) initial_pager)
      with (pager_run l (pager_step totalCount initial_pager (PageSizeChange o))).
    rewrite next_clicks_advance.
    - simpl. f_equal. fold size. lia.
    - unfold totalPages. simpl. fold size. lia. }
  rewrite E. simpl. split; [reflexivity|]. split; [reflexivity|].
  set (q := i / size) in *. set (r := i mod size) in *. clearbody q r. nia.
Qed.

Lemma every_record_reachable_witness :
  currentPage (pager_session 130 [PageSizeChange Size25; NextClick; NextClick;
                                  NextClick; NextClick]) = 4 /\
  4 * 25 <= 117 < (4 + 1) * 25.
Proof.
  destruct (every_record_reachable 130 117 Size25) as (H1 & H2 & H3); [lia|].
  split; [exact H1|]. lia.
Defined.

(** X16: while the filtered count equals the total (no filter hides
    records) and there is at least one record, the text "Showing a-b of
    n" is well formed on every page the user can reach: [1 <= a <= b <=
    n] and the page announces at most one page size of records. *)
Theorem showing_range_well_formed (totalCount : Z) (events : list PagerEvent) :
  0 < totalCount ->
  let p := pager_session totalCount events in
  1 <= showing_from p /\
  showing_from p <= showing_to totalCount p /\
  showing_to totalCount p <= totalCount /\
  showing_to totalCount p - showing_from p + 1 <= pageSize p.
Proof.
  intros Htc p.
  destruct (pager_session_invariant totalCount events) as (Hp & Hs & Hd).
  fold p in Hp, Hs, Hd.
  unfold showing_from, showing_to, page_size_offered in *.
  assert (Hoff : currentPage p * pageSize p < totalCount).
  { destruct Hd as [Hd|Hd]; [rewrite Hd; lia | exact Hd]. }
  repeat split; nia.
Qed.

Lemma showing_range_well_formed_witness :
  let p := pager_session 120 [NextClick; NextClick] in
  showing_from p = 101 /\ showing_to 120 p = 120 /\
  1 <= showing_from p /\ showing_from p <= showing_to 120 p.
Proof.
  intros p.
  destruct (showing_range_well_formed 120 [NextClick; NextClick])
    as (H1 & H2 & _); [lia|].
  fold p in H1, H2. split; [reflexivity|]. split; [reflexivity|].
  split; assumption.
Defined.

(** ** The batch page: edit buffer and save *)

Section BatchPage.

Import QuarantinePage.



Lemma obj_get_None {A} (k : string) (o : list (string * A)) :
  obj_get k o = None <-> k ∉ o.*1.
Proof.
  induction o as [|[k0 v0] o IH]; simpl.
  - split; [intros _; apply not_elem_of_nil | reflexivity].
  - rewrite not_elem_of_cons.
    destruct (String.eqb_spec k0 k) as [->|Hne]; split.
    + intros H. discriminate H.
    + intros [H _]. congruence.
    + intros H. split; [congruence | apply IH, H].
    + intros [_ H]. apply IH, H.
Qed.

Lemma obj_get_elem {A} (k : string) (u : A) (o : list (string * A)) :
  NoDup o.*1 -> (k, u) ∈ o -> obj_get k o = Some u.
Proof.
  induction o as [|[k0 v0] o IH]; simpl; intros Hnd Hin.
  - apply elem_of_nil in Hin. destruct Hin.
  - apply NoDup_cons in Hnd as [Hk0 Hnd].
    apply elem_of_cons in Hin as [Heq|Hin].
    + inversion Heq; subst. rewrite String.eqb_refl. reflexivity.
    + destruct (String.eqb_spec k0 k) as [->|Hne]; [|apply IH; assumption].
      exfalso. apply Hk0. apply list_elem_of_fmap. exists (k, u).
      split; [reflexivity | exact Hin].
Qed.

Lemma elem_of_obj_set {A} (k k' : string) (u v : A) (o : list (string * A)) :
  (k, u) ∈ obj_set k' v o -> (k = k' /\ u = v) \/ (k, u) ∈ o.
Proof.
  induction o as [|[k0 v0] o IH]; simpl.
  - intros H. apply list_elem_of_singleton in H. inversion H. left. split;
      reflexivity.
  - destruct (String.eqb_spec k0 k') as [->|Hne]; intros H;
      apply elem_of_cons in H as [H|H].
    + inversion H. left. split; reflexivity.
    + right. apply elem_of_cons. right. exact H.
    + right. apply elem_of_cons. left. exact H.
    + apply IH in H as [H|H]; [left; exact H|].
      right. apply elem_of_cons. right. exact H.
Qed.

Lemma obj_set_keys {A} (k k' : string) (v : A) (o : list (string * A)) :
  k ∈ (obj_set k' v o).*1 <-> k = k' \/ k ∈ o.*1.
Proof.
  induction o as [|[k0 v0] o IH]; simpl.
  - rewrite list_elem_of_singleton. split; [auto|].
    intros [H|H]; [exact H | apply elem_of_nil in H; destruct H].
  - destruct (String.eqb_spec k0 k') as [->|Hne]; simpl;
      rewrite !elem_of_cons; [tauto|]. rewrite IH. tauto.
Qed.

Lemma obj_set_NoDup {A} (k : string) (v : A) (o : list (string * A)) :
  NoDup o.*1 -> NoDup (obj_set k v o).*1.
Proof.
  induction o as [|[k0 v0] o IH]; simpl; intros Hnd.
  - apply NoDup_singleton.
  - apply NoDup_cons in Hnd as [Hk0 Hnd].
    destruct (String.eqb_spec k0 k) as [->|Hne]; simpl; apply NoDup_cons.
    + split; assumption.
    + split; [|apply IH, Hnd]. rewrite obj_set_keys. intros [H|H];
        [congruence | contradiction].
Qed.

Lemma edited_key (k field : string) (value : JsValue)
    (edits : option (gmap string JsValue)) :
  edited k field value edits !! "composite_key" = Some (JsString k).
Proof. unfold edited. apply lookup_insert_eq. Qed.

Lemma obj_set_well_keyed (k : string) (u : gmap string JsValue)
    (o : list (string * gmap string JsValue)) :
  u !! "composite_key" = Some (JsString k) ->
  well_keyed o -> well_keyed (obj_set k u o).
Proof.
  intros Hu [Hnd Hall]. split; [apply obj_set_NoDup, Hnd|].
  intros k' u' Hin. apply elem_of_obj_set in Hin as [[-> ->]|Hin];
    [exact Hu | apply Hall, Hin].
Qed.

(** Storing entries one after the other keeps the buffer well keyed when
    each entry carries its own key. *)
Lemma fold_obj_set_well_keyed {B} (key : B -> string)
    (val : B -> gmap string JsValue) (l : list B)
    (o : list (string * gmap string JsValue)) :
  (forall b, b ∈ l -> val b !! "composite_key" = Some (JsString (key b))) ->
  well_keyed o ->
  well_keyed (foldl (fun acc b => obj_set (key b) (val b) acc) o l).
Proof.
  revert o. induction l as [|b l IH]; intros o Hval Ho; [exact Ho|].
  simpl. apply IH.
  - intros b' Hb'. apply Hval. apply elem_of_cons. right. exact Hb'.
  - apply obj_set_well_keyed; [|exact Ho]. apply Hval, elem_of_cons.
    left. reflexivity.
Qed.

Lemma handleBatchEdit_well_keyed (field : string) (value : JsValue)
    (st : State) :
  well_keyed (editState st) ->
  well_keyed (editState (handleBatchEdit field value st)).
Proof.
  intros Hst. unfold handleBatchEdit, obj_assign. simpl.
  apply (fold_obj_set_well_keyed fst snd); [|exact Hst].
  intros [k u] Hin. simpl.
  assert (Hup : well_keyed
            (foldl (fun acc key =>
                      obj_set key
                        (edited key field value (obj_get key (editState st)))
                        acc) [] (selectedRecords st))).
  { apply (fold_obj_set_well_keyed (fun key => key)
             (fun key => edited key field value (obj_get key (editState st)))).
    - intros b _. apply edited_key.
    - split; [apply NoDup_nil_2|]. intros k' u' H.
      apply elem_of_nil in H. destruct H. }
  destruct Hup as [_ Hall]. apply Hall, Hin.
Qed.

Lemma step_well_keyed (st : State) (ev : Event) :
  well_keyed (editState st) -> well_keyed (editState (step st ev)).
Proof.
  intros Hst. destruct ev; simpl; try exact Hst.
  - apply obj_set_well_keyed; [apply edited_key | exact Hst].
  - apply handleBatchEdit_well_keyed, Hst.
  - split; [apply NoDup_nil_2|]. intros k u H.
    apply elem_of_nil in H. destruct H.
Qed.

Lemma run_well_keyed (events : list Event) :
  well_keyed (editState (run events)).
Proof.
  unfold run.
  assert (H : forall st, well_keyed (editState st) ->
                         well_keyed (editState (foldl step st events))).
  { induction events as [|ev events IH]; intros st Hst; [exact Hst|].
    simpl. apply IH, step_well_keyed, Hst. }
  apply H. split; [apply NoDup_nil_2|]. intros k u Hin.
  apply elem_of_nil in Hin. destruct Hin.
Qed.

(** In a well-keyed buffer an update is selected exactly when the key it
    is stored under is in the selection. *)
Lemma is_selected_entry (st : State) (k : string) (u : gmap string JsValue) :
  u !! "composite_key" = Some (JsString k) ->
  is_selected st u <-> k ∈ selectedRecords st.
Proof.
  intros Hu. unfold is_selected, js_get. rewrite Hu. simpl.
  unfold js_or. simpl.
  destruct (String.eqb_spec k EmptyString) as [->|Hne]; simpl;
    apply bool_decide_eq_true.
Qed.

(** X17: whatever the user did before, a save on the batch page sends a
    merge request only with updates that carry pairwise distinct
    composite keys; each update sent is the current edit of a selected
    record, the request is never empty, and it names the fixed steward
    address. *)
Theorem save_sends_distinct_selected_updates (events : list Event)
    (request : BatchUpdateRequest) :
  handleSave (run events) = MergeMutation request ->
  NoDup (update_key <$> updates request) /\
  updates request <> [] /\
  user_email request = "data-steward@company.com" /\
  (forall u, u ∈ updates request ->
     exists k, update_key u = JsString k /\
               k ∈ selectedRecords (run events) /\
               obj_get k (editState (run events)) = Some u).
Proof.
  set (st := run events). intros Hsave.
  destruct (run_well_keyed events) as [Hnd Hall]. fold st in Hnd, Hall.
  unfold handleSave in Hsave.
  destruct (Nat.eqb_spec
              (length (filter (is_selected st) (obj_values (editState st)))) 0)
    as [Hz|Hnz]; [discriminate Hsave|].
  inversion Hsave; subst request; clear Hsave. simpl.
  assert (Hkeys : forall u, u ∈ obj_values (editState st) ->
            exists k, (k, u) ∈ editState st /\ update_key u = JsString k).
  { intros u Hu. unfold obj_values in Hu.
    apply list_elem_of_fmap in Hu as ([k u'] & -> & Hin). simpl.
    exists k. split; [exact Hin|]. unfold update_key, js_get.
    rewrite (Hall k u' Hin). reflexivity. }
  split; [|split; [|split; [reflexivity|]]].
  - apply (sublist_NoDup _ (update_key <$> obj_values (editState st)));
      [|apply fmap_sublist, sublist_filter].
    assert (E : update_key <$> obj_values (editState st)
                = JsString <$> (editState st).*1).
    { unfold obj_values. rewrite <- !list_fmap_compose.
      apply list_fmap_ext. intros i [k u] Hi. simpl.
      unfold update_key, js_get.
      rewrite (Hall k u); [reflexivity|].
      apply list_elem_of_lookup. eauto. }
    rewrite E. apply NoDup_fmap_2; [|exact Hnd].
    intros x y Hxy. inversion Hxy. reflexivity.
  - intros Hnil. rewrite Hnil in Hnz. apply Hnz. reflexivity.
  - intros u Hu. apply list_elem_of_filter in Hu as [Hsel Hu].
    destruct (Hkeys u Hu) as (k & Hin & Hk).
    exists k. split; [exact Hk|]. split.
    + apply (is_selected_entry st k u); [apply Hall, Hin | exact Hsel].
    + apply obj_get_elem; assumption.
Qed.

Lemma save_sends_distinct_selected_updates_witness :
  exists request,
    handleSave (run sample_events) = MergeMutation request /\
    length (updates request) = 1%nat /\
    NoDup (update_key <$> updates request).
Proof.
  eexists.
  assert (H : handleSave (run sample_events) = MergeMutation _)
    by (vm_compute; reflexivity).
  split; [exact H|]. split; [reflexivity|].
  exact (proj1 (save_sends_distinct_selected_updates sample_events _ H)).
Defined.

(** X18: a save on the batch page shows the alert, and sends nothing,
    exactly when no selected record has an entry in the edit buffer;
    edits of records that are not selected do not count. *)
Theorem save_alerts_iff_nothing_selected_edited (events : list Event) :
  handleSave (run events) = AlertNoSelection <->
  (forall k, k ∈ selectedRecords (run events) ->
             obj_get k (editState (run events)) = None).
Proof.
  set (st := run events).
  destruct (run_well_keyed events) as [Hnd Hall]. fold st in Hnd, Hall.
  unfold handleSave.
  destruct (Nat.eqb_spec
              (length (filter (is_selected st) (obj_values (editState st)))) 0)
    as [Hz|Hnz]; split.
  - intros _ k Hk. apply obj_get_None. intros Hin.
    apply list_elem_of_fmap in Hin as ([k' u] & -> & Hin). simpl in Hk.
    apply length_zero_iff_nil in Hz.
    assert (Hu : u ∈ filter (is_selected st) (obj_values (editState st))).
    { apply list_elem_of_filter. split.
      - apply (is_selected_entry st k' u); [apply Hall, Hin | exact Hk].
      - unfold obj_values. apply list_elem_of_fmap. exists (k', u).
        split; [reflexivity | exact Hin]. }
    rewrite Hz in Hu. apply elem_of_nil in Hu. destruct Hu.
  - reflexivity.
  - intros H. discriminate H.
  - intros Hnone. exfalso. apply Hnz.
    destruct (filter (is_selected st) (obj_values (editState st)))
      as [|u l] eqn:E; [reflexivity|].
    assert (Hu : u ∈ filter (is_selected st) (obj_values (editState st))).
    { rewrite E. apply elem_of_cons. left. reflexivity. }
    apply list_elem_of_filter in Hu as [Hsel Hu]. unfold obj_values in Hu.
    apply list_elem_of_fmap in Hu as ([k u'] & -> & Hin). simpl in Hsel.
    apply (is_selected_entry st k u' (Hall k u' Hin)) in Hsel.
    apply Hnone in Hsel. apply obj_get_None in Hsel. exfalso. apply Hsel.
    apply list_elem_of_fmap. exists (k, u'). split; [reflexivity | exact Hin].
Qed.

Lemma save_alerts_iff_nothing_selected_edited_witness :
  handleSave (run unselected_events) = AlertNoSelection.
Proof.
  apply (proj2 (save_alerts_iff_nothing_selected_edited unselected_events)).
  intros k Hk. vm_compute in Hk. apply elem_of_nil in Hk. destruct Hk.
Defined.



End BatchPage.
